(** * Picking-list extraction: the reshaping and aggregation core

    A shallow embedding of [generate_picking_list.py].  The program reads a
    wide CSV export into a pandas DataFrame, unpivots the repeating
    (store code, store name, quantity) column blocks into one row per
    positive quantity, and writes three grouped reports.

    Modelling conventions.
    - A Python [str] is a list of Unicode code points ([ustring]).
    - A DataFrame cell is [NaN], a [Text] or a [Number].  Numbers are exact
      rationals ([Qc]); the rounding of float64 sums and the values inf/nan
      of float arithmetic are not represented.
    - A DataFrame is a list of rows; pandas keeps every DataFrame
      rectangular ([rectangular]).  A column read by [read_csv] holds
      numbers or text, with NaN for an empty cell; [cell_compare] orders
      numbers before text before NaN, as pandas orders mixed object
      values, and a column of one kind never exercises the first.
    - [unicodedata.normalize], [pd.to_numeric] on a string and [str] of a
      number belong to the libraries, not to the program: they are the
      methods of the class [Runtime].  [reference_runtime] is an instance
      for running the model on concrete tables.
    - A multi-column [sort_values] is a stable lexicographic sort (pandas
      sorts several keys with a stable lexsort whatever [kind] says). *)

From Stdlib Require Import Ascii String DecimalString.
From Stdlib Require Import List Bool Arith Lia NArith ZArith QArith Qcanon.
From Stdlib Require Import Permutation Sorted.
Import ListNotations.

Set Implicit Arguments.
Close Scope Qc_scope.
Close Scope Q_scope.

(** ** Python strings *)

Definition ustring := list N.

(** UTF-8 decoding, used only to write string constants as in the source. *)
Fixpoint utf8_decode (bs : list N) : ustring :=
  match bs with
  | [] => []
  | b0 :: r0 =>
      if (b0 <? 128)%N then b0 :: utf8_decode r0
      else if (b0 <? 224)%N then
        match r0 with
        | b1 :: r1 => ((b0 mod 32) * 64 + b1 mod 64)%N :: utf8_decode r1
        | _ => []
        end
      else if (b0 <? 240)%N then
        match r0 with
        | b1 :: b2 :: r2 =>
            ((b0 mod 16) * 4096 + (b1 mod 64) * 64 + b2 mod 64)%N
              :: utf8_decode r2
        | _ => []
        end
      else
        match r0 with
        | b1 :: b2 :: b3 :: r3 =>
            ((b0 mod 8) * 262144 + (b1 mod 64) * 4096
             + (b2 mod 64) * 64 + b3 mod 64)%N :: utf8_decode r3
        | _ => []
        end
  end.

Definition u (s : string) : ustring :=
  utf8_decode (map N_of_ascii (list_ascii_of_string s)).

(** [str.isspace], which is also the class [\s] of [re] on [str] patterns. *)
Definition is_space (c : N) : bool :=
  ((9 <=? c) && (c <=? 13) || (28 <=? c) && (c <=? 32)
   || (c =? 133) || (c =? 160) || (c =? 5760)
   || (8192 <=? c) && (c <=? 8202)
   || (c =? 8232) || (c =? 8233) || (c =? 8239) || (c =? 8287)
   || (c =? 12288))%N.

Fixpoint lstrip (s : ustring) : ustring :=
  match s with
  | c :: r => if is_space c then lstrip r else s
  | [] => []
  end.

Definition rstrip (s : ustring) : ustring := rev (lstrip (rev s)).

(** [s.strip()] *)
Definition strip (s : ustring) : ustring := rstrip (lstrip s).

Fixpoint starts_with (p s : ustring) : bool :=
  match p, s with
  | [], _ => true
  | a :: p', b :: s' => (a =? b)%N && starts_with p' s'
  | _ :: _, [] => false
  end.

(** [needle in hay] on strings. *)
Fixpoint contains (needle hay : ustring) : bool :=
  starts_with needle hay
  || match hay with
     | [] => false
     | _ :: r => contains needle r
     end.

Fixpoint ustring_compare (a b : ustring) : comparison :=
  match a, b with
  | [], [] => Eq
  | [], _ :: _ => Lt
  | _ :: _, [] => Gt
  | x :: a', y :: b' =>
      match (x ?= y)%N with
      | Eq => ustring_compare a' b'
      | c => c
      end
  end.

Definition ustring_eqb (a b : ustring) : bool :=
  match ustring_compare a b with Eq => true | _ => false end.

(** ** DataFrame cells *)

Inductive cell : Type :=
| NaN
| Text (s : ustring)
| Number (q : Qc).

(** The library conversions the program relies on. *)
Class Runtime : Type := {
  (** [unicodedata.normalize("NFKC", s)] *)
  nfkc : ustring -> ustring;
  (** [str(x)] for a numeric [x] *)
  str_of_number : Qc -> ustring;
  (** [pd.to_numeric] on one string; [None] when the string is not a number *)
  numeric_of_text : ustring -> option Qc
}.

(** [pd.isna] *)
Definition isna (c : cell) : bool :=
  match c with NaN => true | _ => false end.

(** [str(x)] *)
Definition str `{Runtime} (c : cell) : ustring :=
  match c with
  | NaN => u "nan"
  | Text s => s
  | Number q => str_of_number q
  end.

(** [pd.to_numeric(..., errors="coerce")] on one cell: [None] is NaN. *)
Definition to_numeric `{Runtime} (c : cell) : option Qc :=
  match c with
  | NaN => None
  | Text s => numeric_of_text s
  | Number q => Some q
  end.

(** [.fillna(0)] *)
Definition fillna0 (o : option Qc) : Qc :=
  match o with Some q => q | None => 0%Qc end.

(** Column order used by [sort_values] and by the group order of
    [groupby]: values in their natural order, NaN last. *)
Definition cell_compare (a b : cell) : comparison :=
  match a, b with
  | Number p, Number q => (p ?= q)%Qc
  | Number _, _ => Lt
  | Text _, Number _ => Gt
  | Text s, Text t => ustring_compare s t
  | Text _, NaN => Lt
  | NaN, NaN => Eq
  | NaN, _ => Gt
  end.

Definition cell_eqb (a b : cell) : bool :=
  match cell_compare a b with Eq => true | _ => false end.


(** ** Configuration (the constants at the top of the source) *)

Definition IDX_JAN : nat := 16.
Definition IDX_STORE_START : nat := 37.

Definition COL_IDX_DELIVERY_DATE : nat := 3.
Definition COL_IDX_CLIENT_NAME : nat := 8.
Definition COL_IDX_MK_CODE : nat := 14.
Definition COL_IDX_PROD_NAME : nat := 15.
Definition COL_IDX_COLOR_CODE : nat := 21.
Definition COL_IDX_COLOR_NAME : nat := 23.
Definition COL_IDX_SIZE_NAME : nat := 25.
Definition COL_IDX_ORDER_QTY : nat := 26.
Definition COL_IDX_JAN : nat := 16.

Definition ROW_IDX_STORE_INFO : nat := 0.
Definition ROW_IDX_DATA_START : nat := 1.

Definition STOP_COLUMN_KEYWORD : ustring := u "伝票枝番".

Definition SIZE_ORDER : list ustring :=
  map u ["XS"; "SS"; "S"; "M"; "L"; "LL"; "XL"; "3L"; "4L"; "5L";
         "FREE"; "F"; "Free"; "OneSize"]%string.

(** ** normalize_size_text *)

(** The character class [[\s　]] of the pattern. *)
Definition is_pattern_space (c : N) : bool :=
  is_space c || (c =? 12288)%N.

Fixpoint skip_pattern_spaces (s : ustring) : ustring :=
  match s with
  | c :: r => if is_pattern_space c then skip_pattern_spaces r else s
  | [] => []
  end.

Definition to_lower_ascii (c : N) : N :=
  if ((65 <=? c) && (c <=? 90))%N then (c + 32)%N else c.

(** A pattern character [p] against a subject character [c] under
    [re.IGNORECASE]: equal after lower-casing, or one of the extra
    case-equivalents [re] knows for [s] and [i]. *)
Definition ci_eq (p c : N) : bool :=
  let p' := to_lower_ascii p in
  ((c =? p') || ((97 <=? p') && (p' <=? 122) && (c =? p' - 32))
   || ((p' =? 115) && (c =? 383))
   || ((p' =? 105) && ((c =? 304) || (c =? 305))))%N.

Fixpoint match_literal (pat s : ustring) : option ustring :=
  match pat, s with
  | [], _ => Some s
  | p :: pat', c :: s' => if ci_eq p c then match_literal pat' s' else None
  | _ :: _, [] => None
  end.

(** The group [(サイズ|size|Size)]. *)
Definition SIZE_TOKENS : list ustring := map u ["サイズ"; "size"; "Size"]%string.

Fixpoint match_alternatives (alts : list ustring) (s : ustring)
  : option ustring :=
  match alts with
  | [] => None
  | a :: rest =>
      match match_literal a s with
      | Some r => Some r
      | None => match_alternatives rest s
      end
  end.

(** One match of the whole pattern anchored at the head of [s]; the result is
    what follows the match.  The tokens start with no space character, so
    the greedy [[\s　]*] never has to give characters back. *)
Definition match_size_pattern (s : ustring) : option ustring :=
  match match_alternatives SIZE_TOKENS (skip_pattern_spaces s) with
  | Some r => Some (skip_pattern_spaces r)
  | None => None
  end.

(** [re.sub(pattern, "", s, flags=re.IGNORECASE)]: leftmost matches are
    deleted one after the other.  [fuel] bounds the scan; [length s]
    suffices since every step consumes a character. *)
Fixpoint re_sub_size (fuel : nat) (s : ustring) : ustring :=
  match fuel with
  | O => s
  | S n =>
      match s with
      | [] => []
      | c :: rest =>
          match match_size_pattern s with
          | Some after => re_sub_size n after
          | None => c :: re_sub_size n rest
          end
      end
  end.

Definition normalize_size_text `{Runtime} (text : cell) : ustring :=
  if isna text then []
  else
    let s := str text in
    let s := nfkc s in
    let s := re_sub_size (length s) s in
    strip s.

(** ** Size rank *)

Definition dict : Type := list (ustring * nat).

Fixpoint dict_set (d : dict) (k : ustring) (v : nat) : dict :=
  match d with
  | [] => [(k, v)]
  | (k', v') :: r =>
      if ustring_eqb k' k then (k', v) :: r else (k', v') :: dict_set r k v
  end.

Fixpoint dict_get (d : dict) (k : ustring) : option nat :=
  match d with
  | [] => None
  | (k', v) :: r => if ustring_eqb k' k then Some v else dict_get r k
  end.

Definition enumerate {A : Type} (l : list A) : list (nat * A) :=
  combine (seq 0 (length l)) l.

(** [{size: i for i, size in enumerate(SIZE_ORDER)}] *)
Definition rank_map : dict :=
  fold_left (fun d p => dict_set d (snd p) (fst p)) (enumerate SIZE_ORDER) [].

Definition UNKNOWN_RANK : nat := 999.

(** [.map(rank_map).fillna(999)] on one normalized label. *)
Definition size_rank (normalized : ustring) : nat :=
  match dict_get rank_map normalized with
  | Some i => i
  | None => UNKNOWN_RANK
  end.

Definition rank_cell (r : nat) : cell := Number (Q2Qc (inject_Z (Z.of_nat r))).

(** ** sort_values and sort_df_with_custom_size *)

Fixpoint key_compare (a b : list cell) : comparison :=
  match a, b with
  | [], [] => Eq
  | [], _ :: _ => Lt
  | _ :: _, [] => Gt
  | x :: a', y :: b' =>
      match cell_compare x y with
      | Eq => key_compare a' b'
      | c => c
      end
  end.

Definition key_eqb (a b : list cell) : bool :=
  match key_compare a b with Eq => true | _ => false end.

Section Sorting.
Context {R : Type} (by_ : R -> list cell).

Definition row_leb (x y : R) : bool :=
  match key_compare (by_ x) (by_ y) with Gt => false | _ => true end.

Fixpoint insert_row (x : R) (l : list R) : list R :=
  match l with
  | [] => [x]
  | y :: l' => if row_leb x y then x :: l else y :: insert_row x l'
  end.

(** [df.sort_values(by=[...])] with several keys: rows come out in key
    order and rows with the same key keep their input order. *)
Fixpoint sort_values (l : list R) : list R :=
  match l with
  | [] => []
  | x :: l' => insert_row x (sort_values l')
  end.
End Sorting.

(** A sort column: a plain column or the size column, which is replaced by
    its rank ([_size_rank]). *)
Inductive sort_col (R : Type) : Type :=
| Col (get : R -> cell)
| SizeCol (get : R -> cell).

Arguments Col {R} get.
Arguments SizeCol {R} get.

Definition actual_sort_key `{Runtime} {R : Type} (sort_cols : list (sort_col R))
    (r : R) : list cell :=
  map (fun c =>
         match c with
         | Col get => get r
         | SizeCol get => rank_cell (size_rank (normalize_size_text (get r)))
         end) sort_cols.

Definition sort_df_with_custom_size `{Runtime} {R : Type}
    (df : list R) (sort_cols : list (sort_col R)) : list R :=
  match df with
  | [] => df
  | _ => sort_values (actual_sort_key sort_cols) df
  end.

(** ** Exceptions and early returns

    A step of [process_single_csv] either goes on with a value, leaves the
    function early with a logged [return], or raises. *)

Inductive exn : Type := IndexError | RenderError.

Inductive skip_reason : Type := MalformedInput | NoUsableData.

Inductive outcome (A : Type) : Type :=
| Done (a : A)
| Skipped (why : skip_reason)
| Raised (e : exn).

Arguments Done {A} a.
Arguments Skipped {A} why.
Arguments Raised {A} e.

Definition bind {A B : Type} (c : outcome A) (k : A -> outcome B) : outcome B :=
  match c with
  | Done a => k a
  | Skipped why => Skipped why
  | Raised e => Raised e
  end.

Notation "x <- c ;; k" := (bind c (fun x => k))
  (at level 61, c at next level, right associativity).

Fixpoint mapM {A B : Type} (f : A -> outcome B) (l : list A) : outcome (list B) :=
  match l with
  | [] => Done []
  | a :: l' => b <- f a ;; bs <- mapM f l' ;; Done (b :: bs)
  end.

(** ** The raw table *)

(** [read_csv(..., header=None)] gives at least one row, so the number of
    columns is read off row 0. *)
Definition table : Type := list (list cell).

(** [len(df.columns)] *)
Definition total_cols (df : table) : nat :=
  match df with
  | [] => 0
  | row :: _ => length row
  end.

Definition nth_cell (row : list cell) (c : nat) : outcome cell :=
  match nth_error row c with
  | Some x => Done x
  | None => Raised IndexError
  end.

(** [df.iloc[r, c]] *)
Definition iloc (df : table) (r c : nat) : outcome cell :=
  match nth_error df r with
  | Some row => nth_cell row c
  | None => Raised IndexError
  end.

(** [df.iloc[ROW_IDX_DATA_START:]] *)
Definition df_data (df : table) : list (list cell) :=
  skipn ROW_IDX_DATA_START df.

(** [df.iloc[ROW_IDX_DATA_START:, c]]: a column of the data rows.  The slice
    of rows never raises, a column out of range does. *)
Definition iloc_column (df : table) (c : nat) : outcome (list cell) :=
  if c <? total_cols df then mapM (fun row => nth_cell row c) (df_data df)
  else Raised IndexError.

(** ** Descriptive columns ([col_map], [base_df]) *)

Record base_row : Type := {
  b_delivery_date : cell;
  b_client_name : cell;
  b_mk_code : cell;
  b_prod_name : cell;
  b_color_code : cell;
  b_color_name : cell;
  b_size_name : cell;
  b_jan : cell
}.

Definition base_row_of (row : list cell) : outcome base_row :=
  d <- nth_cell row COL_IDX_DELIVERY_DATE ;;
  c <- nth_cell row COL_IDX_CLIENT_NAME ;;
  m <- nth_cell row COL_IDX_MK_CODE ;;
  p <- nth_cell row COL_IDX_PROD_NAME ;;
  cc <- nth_cell row COL_IDX_COLOR_CODE ;;
  cn <- nth_cell row COL_IDX_COLOR_NAME ;;
  s <- nth_cell row COL_IDX_SIZE_NAME ;;
  j <- nth_cell row COL_IDX_JAN ;;
  Done {| b_delivery_date := d; b_client_name := c; b_mk_code := m;
          b_prod_name := p; b_color_code := cc; b_color_name := cn;
          b_size_name := s; b_jan := j |}.

Definition base_df (df : table) : outcome (list base_row) :=
  mapM base_row_of (df_data df).

(** ** Store-block scan *)

(** [range(start, stop, step)] for a positive step. *)
Definition py_range (start stop step : nat) : list nat :=
  map (fun k => start + step * k) (seq 0 ((stop - start + (step - 1)) / step)).

Record block_row : Type := {
  k_store_code : ustring;
  k_store_name : ustring;
  k_qty : Qc;
  k_original_index : nat
}.

Definition Qc_ltb (x y : Qc) : bool :=
  match (x ?= y)%Qc with Lt => true | _ => false end.

(** The DataFrame [block] of one store: every data row with the store's code
    and name, its coerced quantity and its row position, then the rows with
    a positive quantity. *)
Definition block_of `{Runtime} (store_code store_name : ustring)
    (qty_series : list cell) : list block_row :=
  filter (fun b => Qc_ltb 0 (k_qty b))
    (map (fun p => {| k_store_code := store_code;
                      k_store_name := store_name;
                      k_qty := fillna0 (to_numeric (snd p));
                      k_original_index := fst p |})
         (enumerate qty_series)).

(** [str(x) if not pd.isna(x) else ""] *)
Definition text_or_empty `{Runtime} (x : cell) : ustring :=
  if isna x then [] else str x.

(** [str(x).strip() if not pd.isna(x) else ""] *)
Definition stripped_or_empty `{Runtime} (x : cell) : ustring :=
  if isna x then [] else strip (str x).

(** The loop over [range(IDX_STORE_START, total_cols, 3)]; the result is
    [store_data_list]. *)
Fixpoint scan_store_blocks `{Runtime} (df : table) (cols : list nat)
  : outcome (list (list block_row)) :=
  match cols with
  | [] => Done []
  | i :: rest =>
      if total_cols df <=? i + 2 then Done []
      else
        h <- iloc df ROW_IDX_STORE_INFO i ;;
        let current_header := text_or_empty h in
        if contains STOP_COLUMN_KEYWORD current_header then Done []
        else
          c <- iloc df ROW_IDX_DATA_START i ;;
          let store_code := stripped_or_empty c in
          n <- iloc df ROW_IDX_DATA_START (i + 1) ;;
          let store_name := stripped_or_empty n in
          qty_series <- iloc_column df (i + 2) ;;
          let block := block_of store_code store_name qty_series in
          tail <- scan_store_blocks df rest ;;
          Done (match block with [] => tail | _ => block :: tail end)
  end.

Definition store_data_list `{Runtime} (df : table)
  : outcome (list (list block_row)) :=
  scan_store_blocks df (py_range IDX_STORE_START (total_cols df) 3).

(** ** Facts ([final_df]) *)

Record Fact : Type := {
  delivery_date : cell;
  client_name : cell;
  mk_code : cell;
  prod_name : cell;
  color_code : cell;
  color_name : cell;
  size_name : ustring;
  jan : cell;
  store_code : ustring;
  store_name : ustring;
  qty : Qc;
  original_index : nat
}.

(** One row of [final_df]: the descriptive row at the block row's position,
    side by side with the block row, the size label normalized. *)
Definition join_row `{Runtime} (b : base_row) (k : block_row) : Fact :=
  {| delivery_date := b_delivery_date b;
     client_name := b_client_name b;
     mk_code := b_mk_code b;
     prod_name := b_prod_name b;
     color_code := b_color_code b;
     color_name := b_color_name b;
     size_name := normalize_size_text (b_size_name b);
     jan := b_jan b;
     store_code := k_store_code k;
     store_name := k_store_name k;
     qty := k_qty k;
     original_index := k_original_index k |}.

(** [base_df.iloc[long_df["original_index"]]] joined with [long_df]. *)
Definition positional_join `{Runtime} (base : list base_row)
    (long_df : list block_row) : outcome (list Fact) :=
  mapM (fun k =>
          match nth_error base (k_original_index k) with
          | Some b => Done (join_row b k)
          | None => Raised IndexError
          end) long_df.

(** Steps 1 to 3 of [process_single_csv] after the file is read: the column
    count check, the descriptive columns, the store-block scan, the
    no-data check and the long table. *)
Definition final_df `{Runtime} (df : table) : outcome (list Fact) :=
  if total_cols df <=? 26 then Skipped MalformedInput
  else
    base <- base_df df ;;
    blocks <- store_data_list df ;;
    match blocks with
    | [] => Skipped NoUsableData
    | _ => positional_join base (concat blocks)
    end.

(** ** groupby *)

Definition sum_qty (l : list Qc) : Qc := fold_right Qcplus 0%Qc l.

(** [dropna=True], the default of [groupby]: a row with a missing key value
    belongs to no group. *)
Definition dropna {R : Type} (key : R -> list cell) (df : list R) : list R :=
  filter (fun r => negb (existsb isna (key r))) df.

(** The first row of every distinct key, in order of first appearance. *)
Fixpoint unique_by {R : Type} (key : R -> list cell) (l : list R) : list R :=
  match l with
  | [] => []
  | x :: l' =>
      x :: filter (fun y => negb (key_eqb (key y) (key x))) (unique_by key l')
  end.

(** [df.groupby(key, sort=False)]: the groups in order of first appearance,
    each with its first row and its rows in input order. *)
Definition groupby {R : Type} (key : R -> list cell) (df : list R)
  : list (R * list R) :=
  let kept := dropna key df in
  map (fun g => (g, filter (fun r => key_eqb (key r) (key g)) kept))
      (unique_by key kept).

(** [df.groupby(key, as_index=False)[value].sum()]: one row per group, the
    groups in key order. *)
Definition groupby_sum {R : Type} (key : R -> list cell) (value : R -> Qc)
    (df : list R) : list (R * Qc) :=
  map (fun g => (fst g, sum_qty (map value (snd g))))
      (sort_values (fun g => key (fst g)) (groupby key df)).

(** ** Report 1: by product *)

Record agg_row : Type := {
  a_prod_name : cell;
  a_code : cell;
  a_color_code : cell;
  a_color_name : cell;
  a_size : ustring;
  a_amount : Qc
}.

Definition agg_row_of (g : Fact * Qc) : agg_row :=
  {| a_prod_name := prod_name (fst g);
     a_code := mk_code (fst g);
     a_color_code := color_code (fst g);
     a_color_name := color_name (fst g);
     a_size := size_name (fst g);
     a_amount := snd g |}.

Definition group_cols_1 (f : Fact) : list cell :=
  [prod_name f; mk_code f; color_code f; color_name f; Text (size_name f)].

(** The sort columns [["商品名", "品番", "MK_COLOR", "サイズ"]]. *)
Definition product_sort_cols : list (sort_col agg_row) :=
  [Col a_prod_name; Col a_code; Col a_color_code;
   SizeCol (fun r => Text (a_size r))].

Record checked_row : Type := {
  c_row : agg_row;
  c_check : ustring
}.

Definition out1 `{Runtime} (final : list Fact) : list checked_row :=
  let grouped := map agg_row_of (groupby_sum group_cols_1 qty final) in
  let sorted := sort_df_with_custom_size grouped product_sort_cols in
  map (fun r => {| c_row := r; c_check := [] |}) sorted.

(** ** Report 2: by center *)

Record center_row : Type := {
  n_center : cell;
  n_row : agg_row
}.

Definition group_cols_2 (f : Fact) : list cell :=
  [client_name f; prod_name f; mk_code f; color_code f; color_name f;
   Text (size_name f)].

Definition out2_base (final : list Fact) : list center_row :=
  map (fun g => {| n_center := client_name (fst g); n_row := agg_row_of g |})
      (groupby_sum group_cols_2 qty final).

(** [==] between two cells: NaN equals nothing. *)
Definition py_eq (a b : cell) : bool := negb (isna a) && cell_eqb a b.

(** [out2_base[...].unique()] *)
Definition centers (o2 : list center_row) : list cell :=
  map n_center (unique_by (fun r => [n_center r]) o2).

Record center_sheet : Type := {
  cs_center : cell;
  cs_rows : list agg_row
}.

Definition center_sheets `{Runtime} (o2 : list center_row) : list center_sheet :=
  map (fun center =>
         let df_center := filter (fun r => py_eq (n_center r) center) o2 in
         let df_center :=
           sort_df_with_custom_size df_center
             [Col (fun r => a_prod_name (n_row r)); Col (fun r => a_code (n_row r));
              Col (fun r => a_color_code (n_row r));
              SizeCol (fun r => Text (a_size (n_row r)))] in
         {| cs_center := center; cs_rows := map n_row df_center |})
      (centers o2).

Definition out2 `{Runtime} (final : list Fact) : list center_sheet :=
  center_sheets (out2_base final).

(** ** Report 3: by store *)

Definition out3_base `{Runtime} (final : list Fact) : list Fact :=
  sort_df_with_custom_size final
    [Col client_name; Col (fun f => Text (store_code f));
     Col (fun f => Text (store_name f)); Col prod_name; Col mk_code;
     Col color_code; SizeCol (fun f => Text (size_name f))].

Record store_out_row : Type := {
  s_prod_name : cell;
  s_code : cell;
  s_color_name : cell;
  s_size : ustring;
  s_qty : Qc
}.

Definition store_out_row_of (f : Fact) : store_out_row :=
  {| s_prod_name := prod_name f; s_code := mk_code f;
     s_color_name := color_name f; s_size := size_name f; s_qty := qty f |}.

Record store_sheet : Type := {
  st_code : ustring;
  st_name : ustring;
  st_client_name : cell;
  df_out : list store_out_row;
  total_qty : Qc
}.

Definition store_key (f : Fact) : list cell :=
  [Text (store_code f); Text (store_name f)].

Definition store_sheets (o3 : list Fact) : list store_sheet :=
  map (fun g =>
         let df_store := snd g in
         {| st_code := store_code (fst g);
            st_name := store_name (fst g);
            st_client_name := client_name (fst g);
            df_out := map store_out_row_of df_store;
            total_qty := sum_qty (map qty df_store) |})
      (groupby store_key o3).

Definition out3 `{Runtime} (final : list Fact) : list store_sheet :=
  store_sheets (out3_base final).

(** ** The core: reshape, then the three aggregations *)

Record reports : Type := {
  by_product : list checked_row;
  by_center : list center_sheet;
  by_store : list store_sheet
}.

Definition aggregate `{Runtime} (final : list Fact) : reports :=
  {| by_product := out1 final; by_center := out2 final; by_store := out3 final |}.

Definition core `{Runtime} (df : table) : outcome reports :=
  final <- final_df df ;; Done (aggregate final).

(** ** process_single_csv and main

    The file system and the Excel writer are outside the program.  A file is
    what the two [read_csv] attempts give and whether each of the three
    workbooks can be written; a workbook that cannot be written raises
    inside its [with pd.ExcelWriter(...)] block. *)

Inductive read_result : Type :=
| ReadOk (df : table)
| UnicodeDecodeError
| ReadError.

Inductive report_id : Type := Report1 | Report2 | Report3.

Record csv_file : Type := {
  read_utf8 : read_result;
  read_cp932 : read_result;
  writable : report_id -> bool
}.

Inductive event : Type :=
| LogRetryShiftJIS
| LogReadFailure
| LogSkipColumns
| LogSkipNoData
| Wrote1 (rows : list checked_row)
| Wrote2 (sheets : list center_sheet)
| Wrote3 (sheets : list store_sheet)
| LogReport3Failure
| LogNoFiles
| LogFinished.

(** Step 1, the nested [try] around [pd.read_csv]. *)
Definition read_csv (f : csv_file) : list event * option table :=
  match read_utf8 f with
  | ReadOk df => ([], Some df)
  | UnicodeDecodeError =>
      match read_cp932 f with
      | ReadOk df => ([LogRetryShiftJIS], Some df)
      | _ => ([LogRetryShiftJIS; LogReadFailure], None)
      end
  | ReadError => ([LogReadFailure], None)
  end.

(** The events of one file and the exception that leaves the function, if
    any.  Only the third workbook is written inside a [try]. *)
Definition process_single_csv `{Runtime} (f : csv_file)
  : list event * option exn :=
  match read_csv f with
  | (log, None) => (log, None)
  | (log, Some df) =>
      match final_df df with
      | Skipped MalformedInput => (log ++ [LogSkipColumns], None)
      | Skipped NoUsableData => (log ++ [LogSkipNoData], None)
      | Raised e => (log, Some e)
      | Done final =>
          if writable f Report1 then
            let log := log ++ [Wrote1 (out1 final)] in
            if writable f Report2 then
              let log := log ++ [Wrote2 (out2 final)] in
              if writable f Report3 then (log ++ [Wrote3 (out3 final)], None)
              else (log ++ [LogReport3Failure], None)
            else (log, Some RenderError)
          else (log, Some RenderError)
      end
  end.

(** [for file_path in files: process_single_csv(file_path)]: nothing catches
    what a file raises. *)
Fixpoint process_files `{Runtime} (files : list csv_file)
  : list event * option exn :=
  match files with
  | [] => ([], None)
  | f :: rest =>
      match process_single_csv f with
      | (log, Some e) => (log, Some e)
      | (log, None) =>
          let r := process_files rest in (log ++ fst r, snd r)
      end
  end.

Definition main `{Runtime} (files : list csv_file) : list event * option exn :=
  match files with
  | [] => ([LogNoFiles], None)
  | _ =>
      match process_files files with
      | (log, None) => (log ++ [LogFinished], None)
      | r => r
      end
  end.

(** ** The store-block region in the words of the specification

    Block [k] is the three columns from [IDX_STORE_START + 3 * k].  The
    region is the blocks before the first one that is cut by the end of the
    table or whose row-0 header contains the stop keyword. *)

Definition block_col (k : nat) : nat := IDX_STORE_START + 3 * k.

Definition cell_at (df : table) (r c : nat) : cell := nth c (nth r df []) NaN.

Definition header_has_stop `{Runtime} (df : table) (k : nat) : bool :=
  contains STOP_COLUMN_KEYWORD
    (text_or_empty (cell_at df ROW_IDX_STORE_INFO (block_col k))).

Definition block_complete (df : table) (k : nat) : bool :=
  block_col k + 2 <? total_cols df.

Fixpoint take_while {A : Type} (p : A -> bool) (l : list A) : list A :=
  match l with
  | [] => []
  | x :: l' => if p x then x :: take_while p l' else []
  end.

Definition in_region `{Runtime} (df : table) (k : nat) : bool :=
  block_complete df k && negb (header_has_stop df k).

Definition region_blocks `{Runtime} (df : table) : list nat :=
  take_while (in_region df) (seq 0 (total_cols df)).

(** The rows block [k] contributes, read off the table directly: the store
    code and name of the first data row, and one row per data row whose
    quantity cell coerces to a positive number. *)
Definition region_block_rows `{Runtime} (df : table) (k : nat) : list block_row :=
  block_of (stripped_or_empty (cell_at df ROW_IDX_DATA_START (block_col k)))
           (stripped_or_empty (cell_at df ROW_IDX_DATA_START (block_col k + 1)))
           (map (fun row => nth (block_col k + 2) row NaN) (df_data df)).

(** The coerced quantity cells of block [k], one per data row. *)
Definition block_quantities `{Runtime} (df : table) (k : nat) : list Qc :=
  map (fun row => fillna0 (to_numeric (nth (block_col k + 2) row NaN)))
      (df_data df).


(** ** A concrete runtime

    Decimal integers only, and the part of NFKC that size labels meet: the
    full-width forms of ASCII and the space characters with a compatibility
    mapping to U+0020.  It agrees with the libraries on the inputs of the
    examples below. *)

Definition nfkc_char (c : N) : N :=
  (if (65281 <=? c) && (c <=? 65374) then c - 65248
   else if (c =? 160) || (8192 <=? c) && (c <=? 8202) || (c =? 8239)
           || (c =? 8287) || (c =? 12288) then 32
   else if c =? 383 then 115
   else c)%N.

Fixpoint digits_value (acc : Z) (s : ustring) : option Z :=
  match s with
  | [] => Some acc
  | c :: r =>
      if ((48 <=? c) && (c <=? 57))%N
      then digits_value (10 * acc + Z.of_N (c - 48)) r
      else None
  end.

Definition parse_integer (s : ustring) : option Qc :=
  match strip s with
  | [] => None
  | 45%N :: c :: r =>
      option_map (fun z => Q2Qc (inject_Z (- z))) (digits_value 0 (c :: r))
  | r => option_map (fun z => Q2Qc (inject_Z z)) (digits_value 0 r)
  end.

Definition ascii_text (s : string) : ustring :=
  map N_of_ascii (list_ascii_of_string s).

Definition print_rational (q : Qc) : ustring :=
  let n := ascii_text (NilZero.string_of_int (Z.to_int (Qnum q))) in
  match Qden q with
  | xH => n
  | d => n ++ ascii_text "/" ++ ascii_text (NilZero.string_of_int (Pos.to_int d))
  end.

Definition reference_runtime : Runtime :=
  {| nfkc := map nfkc_char;
     str_of_number := print_rational;
     numeric_of_text := parse_integer |}.

(** ** Sample tables *)

Fixpoint lookup_cell (c : nat) (cells : list (nat * cell)) : cell :=
  match cells with
  | [] => NaN
  | (c', v) :: rest => if c =? c' then v else lookup_cell c rest
  end.

(** A row of [n] columns, empty except for the listed cells. *)
Definition make_row (n : nat) (cells : list (nat * cell)) : list cell :=
  map (fun c => lookup_cell c cells) (seq 0 n).

Definition T (s : string) : cell := Text (u s).

(** Two store blocks (columns 37-39 and 40-42) and a third block whose
    header holds the stop keyword; three data rows. *)
Definition sample_table : table :=
  [ make_row 46 [(37, T "店舗"); (40, T "店舗"); (43, T "伝票枝番")];
    make_row 46 [(8, T "C1"); (14, T "P01"); (15, T "Shirt"); (21, T "10");
                 (23, T "Red"); (25, T "Ｍサイズ");
                 (37, T "A"); (38, T "Store A"); (39, T "3");
                 (40, T "B"); (41, T "Store B"); (42, T "0"); (45, T "9")];
    make_row 46 [(8, T "C1"); (14, T "P01"); (15, T "Shirt"); (21, T "10");
                 (23, T "Red"); (25, T " M ");
                 (39, T "x"); (42, T "2"); (45, T "9")];
    make_row 46 [(8, T "C2"); (14, T "P01"); (15, T "Shirt"); (21, T "10");
                 (23, T "Red"); (25, T "S");
                 (39, T "5"); (45, T "9")] ].

(** The block columns of a fact. *)
Definition fact_block_row (f : Fact) : block_row :=
  {| k_store_code := store_code f;
     k_store_name := store_name f;
     k_qty := qty f;
     k_original_index := original_index f |}.

(** The facts of the sample table. *)
Definition sample_final : list Fact :=
  match @final_df reference_runtime sample_table with
  | Done final => final
  | _ => []
  end.



(** Every row has as many cells as row 0: what pandas guarantees of any
    DataFrame. *)
Definition rectangular (df : table) : bool :=
  forallb (fun row => length row =? total_cols df) df.

(** A header row alone, wide enough for one store block. *)
Definition one_row_table : table := [make_row 40 [(37, T "店舗")]].

(** ** Totals per grouping key, for comparing the reports *)







(** ** Sample files *)

Definition always_writable (id : report_id) : bool := true.

(** The sample table in a UTF-8 file. *)
Definition sample_file_utf8 : csv_file :=
  {| read_utf8 := ReadOk sample_table;
     read_cp932 := ReadError;
     writable := always_writable |}.

(** The sample table in a Shift-JIS file: the first read fails to decode. *)
Definition sample_file_cp932 : csv_file :=
  {| read_utf8 := UnicodeDecodeError;
     read_cp932 := ReadOk sample_table;
     writable := always_writable |}.

(** The sample table where the first workbook cannot be written (say,
    [1_商品別.xlsx] is open in another program). *)
Definition locked_report1_file : csv_file :=
  {| read_utf8 := ReadOk sample_table;
     read_cp932 := ReadError;
     writable := fun id => match id with Report1 => false | _ => true end |}.

(** The same with the third workbook. *)
Definition locked_report3_file : csv_file :=
  {| read_utf8 := ReadOk sample_table;
     read_cp932 := ReadError;
     writable := fun id => match id with Report3 => false | _ => true end |}.

Definition is_report (e : event) : bool :=
  match e with
  | Wrote1 _ | Wrote2 _ | Wrote3 _ => true
  | _ => false
  end.

(** The workbooks among the events of a run. *)
Definition written (log : list event) : list event := filter is_report log.

(** ** sanitize_sheet_name *)

(** The set that opens the pattern [[\\|/|:|?|*|[|]]]: backslash, bar, slash,
    colon, question mark, star and opening bracket.  The first closing
    bracket ends the set, so the second one is a literal that has to follow
    a character of the set. *)
Definition in_sheet_set (c : N) : bool :=
  ((c =? 92) || (c =? 124) || (c =? 47) || (c =? 58) || (c =? 63)
   || (c =? 42) || (c =? 91))%N.

(** [re.sub(pattern, "_", s)]: every character of the set with a closing
    bracket right after it becomes one underscore, leftmost first. *)
Fixpoint re_sub_sheet (s : ustring) : ustring :=
  match s with
  | c :: tl =>
      match tl with
      | d :: rest =>
          if in_sheet_set c && (d =? 93)%N then 95%N :: re_sub_sheet rest
          else c :: re_sub_sheet tl
      | [] => s
      end
  | [] => []
  end.

Definition sanitize_sheet_name `{Runtime} (name : cell) : ustring :=
  if isna name || cell_eqb name (Text []) then u "Unknown"
  else firstn 31 (strip (re_sub_sheet (str name))).

(** The sheet name of a center and, from [f"{st_code}_{st_name}"], of a
    store. *)
Definition center_sheet_name `{Runtime} (s : center_sheet) : ustring :=
  sanitize_sheet_name (cs_center s).

Definition store_sheet_name `{Runtime} (s : store_sheet) : ustring :=
  sanitize_sheet_name (Text (st_code s ++ 95%N :: st_name s)).

(** ** get_str_width *)

Section StrWidth.
(** [unicodedata.east_asian_width] *)
Variable east_asian_width : N -> string.

Definition counts_double (c : N) : bool :=
  existsb (String.eqb (east_asian_width c)) ["F"; "W"; "A"]%string.

(** The loop of [get_str_width] over the characters of [str(s)]. *)
Definition get_str_width (s : ustring) : nat :=
  fold_left (fun width c => if counts_double c then width + 2 else width + 1)
    s 0.
End StrWidth.

(** The key order of [sort_values]. *)
Definition key_le (a b : list cell) : Prop := key_compare a b <> Gt.

(** A table of 30 columns: wide enough to pass the column check, too narrow
    for a store block. *)
Definition narrow_table : table :=
  [ make_row 30 []; make_row 30 [(15, T "Shirt"); (25, T "M")] ].

(** A Shift-JIS file whose second read fails as well. *)
Definition unreadable_file : csv_file :=
  {| read_utf8 := UnicodeDecodeError;
     read_cp932 := ReadError;
     writable := always_writable |}.

Definition narrow_file : csv_file :=
  {| read_utf8 := ReadOk narrow_table;
     read_cp932 := ReadError;
     writable := always_writable |}.


(** ByProduct of the sample table, and a row to read it by position. *)
Definition sample_out1 : list checked_row := @out1 reference_runtime sample_final.

Definition blank_row : checked_row :=
  {| c_row := {| a_prod_name := NaN; a_code := NaN; a_color_code := NaN;
                 a_color_name := NaN; a_size := []; a_amount := 0%Qc |};
     c_check := [] |}.

(** ** A fact and the cells it comes from *)

(** The descriptive fields of [f] are the cells of the data row [row]. *)
Definition describes `{Runtime} (row : list cell) (f : Fact) : Prop :=
  delivery_date f = nth COL_IDX_DELIVERY_DATE row NaN /\
  client_name f = nth COL_IDX_CLIENT_NAME row NaN /\
  mk_code f = nth COL_IDX_MK_CODE row NaN /\
  prod_name f = nth COL_IDX_PROD_NAME row NaN /\
  color_code f = nth COL_IDX_COLOR_CODE row NaN /\
  color_name f = nth COL_IDX_COLOR_NAME row NaN /\
  size_name f = normalize_size_text (nth COL_IDX_SIZE_NAME row NaN) /\
  jan f = nth COL_IDX_JAN row NaN.

(** The store of [f] is the store of block [k] (read in the first data row)
    and its quantity is the coerced quantity cell of block [k] in [row]. *)
Definition from_block `{Runtime} (df : table) (k : nat) (row : list cell)
    (f : Fact) : Prop :=
  store_code f = stripped_or_empty (cell_at df ROW_IDX_DATA_START (block_col k)) /\
  store_name f
    = stripped_or_empty (cell_at df ROW_IDX_DATA_START (block_col k + 1)) /\
  qty f = fillna0 (to_numeric (nth (block_col k + 2) row NaN)).

(** A string that neither starts nor ends with a space character. *)
Definition starts_clean (s : ustring) : Prop :=
  match s with
  | [] => True
  | c :: _ => is_space c = false
  end.

Definition no_surrounding_space (s : ustring) : Prop :=
  starts_clean s /\ starts_clean (rev s).

(** A name of 31 letters and two names that extend it. *)
Definition long_name : ustring := repeat 97%N 31.

(** * Properties *)

(** ** Comparisons decide equality *)

Lemma ustring_compare_refl (a : ustring) : ustring_compare a a = Eq.
Proof.
  induction a as [|x a IH]; simpl; [reflexivity|].
  now rewrite N.compare_refl.
Qed.

Lemma ustring_compare_eq (a b : ustring) : ustring_compare a b = Eq -> a = b.
Proof.
  revert b; induction a as [|x a IH]; intros [|y b]; simpl;
    try discriminate; [reflexivity|].
  destruct (x ?= y)%N eqn:E; try discriminate.
  apply N.compare_eq_iff in E; subst y.
  intros H; f_equal; auto.
Qed.

Lemma ustring_eqb_eq (a b : ustring) : ustring_eqb a b = true <-> a = b.
Proof.
  unfold ustring_eqb; split.
  - destruct (ustring_compare a b) eqn:E; try discriminate.
    intros _; now apply ustring_compare_eq.
  - intros ->; now rewrite ustring_compare_refl.
Qed.

Lemma cell_compare_refl (a : cell) : cell_compare a a = Eq.
Proof.
  destruct a; simpl; [reflexivity|apply ustring_compare_refl|].
  now apply Qceq_alt.
Qed.

Lemma cell_compare_eq (a b : cell) : cell_compare a b = Eq -> a = b.
Proof.
  destruct a, b; simpl; try discriminate; [reflexivity| |].
  - intros H; f_equal; now apply ustring_compare_eq.
  - intros H; f_equal; now apply Qceq_alt.
Qed.

Lemma key_compare_refl (a : list cell) : key_compare a a = Eq.
Proof.
  induction a as [|x a IH]; simpl; [reflexivity|].
  now rewrite cell_compare_refl.
Qed.

Lemma key_compare_eq (a b : list cell) : key_compare a b = Eq -> a = b.
Proof.
  revert b; induction a as [|x a IH]; intros [|y b]; simpl;
    try discriminate; [reflexivity|].
  destruct (cell_compare x y) eqn:E; try discriminate.
  apply cell_compare_eq in E; subst y.
  intros H; f_equal; auto.
Qed.

Lemma key_eqb_eq (a b : list cell) : key_eqb a b = true <-> a = b.
Proof.
  unfold key_eqb; split.
  - destruct (key_compare a b) eqn:E; try discriminate.
    intros _; now apply key_compare_eq.
  - intros ->; now rewrite key_compare_refl.
Qed.

Lemma key_eqb_refl (a : list cell) : key_eqb a a = true.
Proof. now apply key_eqb_eq. Qed.

Lemma key_eqb_sym (a b : list cell) : key_eqb a b = key_eqb b a.
Proof.
  destruct (key_eqb a b) eqn:E1, (key_eqb b a) eqn:E2; try reflexivity.
  - apply key_eqb_eq in E1; subst; now rewrite key_eqb_refl in E2.
  - apply key_eqb_eq in E2; subst; now rewrite key_eqb_refl in E1.
Qed.

(** ** Size rank *)

Lemma dict_get_absent (d : dict) (k : ustring) :
  ~ In k (map fst d) -> dict_get d k = None.
Proof.
  induction d as [|[k' v] d IH]; simpl; intros H; [reflexivity|].
  destruct (ustring_eqb k' k) eqn:E.
  - apply ustring_eqb_eq in E; tauto.
  - apply IH; tauto.
Qed.

Lemma rank_map_keys : map fst rank_map = SIZE_ORDER.
Proof. vm_compute; reflexivity. Qed.

Lemma size_rank_position (i : nat) (l : ustring) :
  nth_error SIZE_ORDER i = Some l -> size_rank l = i.
Proof.
  intros H.
  let v := eval vm_compute in SIZE_ORDER in
  assert (E : SIZE_ORDER = v) by (vm_compute; reflexivity).
  rewrite E in H.
  do 14 (destruct i as [|i]; [injection H as <-; vm_compute; reflexivity|]).
  destruct i; discriminate.
Qed.

Lemma size_rank_unknown (l : ustring) :
  ~ In l SIZE_ORDER -> size_rank l = 999.
Proof.
  intros H; unfold size_rank.
  rewrite dict_get_absent; [reflexivity|].
  now rewrite rank_map_keys.
Qed.

(** C6.  The rank of a label of [SIZE_ORDER] is its 0-based position; every
    other label gets 999, which is above every position; so labels of the
    list rank in list order and every unknown label ranks after every
    known one. *)
Theorem size_rank_total_order :
  (forall i l, nth_error SIZE_ORDER i = Some l -> size_rank l = i) /\
  (forall l, ~ In l SIZE_ORDER -> size_rank l = 999) /\
  (forall i, i < length SIZE_ORDER -> i < 999) /\
  (forall i j a b,
      nth_error SIZE_ORDER i = Some a -> nth_error SIZE_ORDER j = Some b ->
      i < j -> size_rank a < size_rank b) /\
  (forall a b,
      In a SIZE_ORDER -> ~ In b SIZE_ORDER -> size_rank a < size_rank b).
Proof.
  assert (L : length SIZE_ORDER = 14) by reflexivity.
  repeat split.
  - apply size_rank_position.
  - apply size_rank_unknown.
  - intros i Hi; lia.
  - intros i j a b Ha Hb Hij.
    now rewrite (size_rank_position _ Ha), (size_rank_position _ Hb).
  - intros a b Ha Hb.
    apply In_nth_error in Ha; destruct Ha as [i Ha].
    rewrite (size_rank_position _ Ha), (size_rank_unknown Hb).
    assert (i < length SIZE_ORDER) by (apply nth_error_Some; congruence).
    lia.
Qed.

(** ** The normalization scenario *)

(** C5, as amended.  "Ｍサイズ" and " M " normalize to the same form "M" and
    get the same rank 3.  "m size" normalizes to "m": the size token is
    removed whatever its case, the rest of the label keeps its case, and
    "m" is not in the size list, so its rank is 999. *)
Theorem normalization_scenario (R : Runtime) :
  nfkc (u "Ｍサイズ") = u "Mサイズ" ->
  nfkc (u " M ") = u " M " ->
  nfkc (u "m size") = u "m size" ->
  normalize_size_text (T "Ｍサイズ") = u "M" /\
  normalize_size_text (T " M ") = u "M" /\
  size_rank (u "M") = 3 /\
  normalize_size_text (T "m size") = u "m" /\
  size_rank (u "m") = 999.
Proof.
  intros H1 H2 H3.
  unfold normalize_size_text, T; simpl isna; cbv iota; simpl str.
  rewrite H1, H2, H3.
  repeat split; vm_compute; reflexivity.
Qed.

Lemma normalization_scenario_witness :
  @normalize_size_text reference_runtime (T "Ｍサイズ") = u "M" /\
  @normalize_size_text reference_runtime (T " M ") = u "M" /\
  size_rank (u "M") = 3 /\
  @normalize_size_text reference_runtime (T "m size") = u "m" /\
  size_rank (u "m") = 999.
Proof.
  apply (@normalization_scenario reference_runtime); reflexivity.
Defined.

(** The scenario as the specification states it does not hold: the third
    label has another canonical form and another rank. *)
Lemma normalization_scenario_differs :
  ~ (@normalize_size_text reference_runtime (T "Ｍサイズ")
       = @normalize_size_text reference_runtime (T " M ") /\
     @normalize_size_text reference_runtime (T " M ")
       = @normalize_size_text reference_runtime (T "m size") /\
     size_rank (@normalize_size_text reference_runtime (T "Ｍサイズ"))
       = size_rank (@normalize_size_text reference_runtime (T " M ")) /\
     size_rank (@normalize_size_text reference_runtime (T " M "))
       = size_rank (@normalize_size_text reference_runtime (T "m size"))).
Proof.
  intros (_ & H & _); vm_compute in H; discriminate.
Qed.

(** ** The scan of re.sub never runs out of fuel *)

Lemma skip_pattern_spaces_length (s : ustring) :
  length (skip_pattern_spaces s) <= length s.
Proof.
  induction s as [|c s IH]; simpl; [lia|].
  destruct (is_pattern_space c); simpl; lia.
Qed.

Lemma match_literal_length (pat s r : ustring) :
  match_literal pat s = Some r -> length r + length pat = length s.
Proof.
  revert s; induction pat as [|p pat IH]; intros [|c s]; simpl;
    try discriminate; try (intros [= <-]; simpl; lia).
  destruct (ci_eq p c); [|discriminate].
  intros Hr; specialize (IH _ Hr); lia.
Qed.

Lemma match_alternatives_length (alts : list ustring) (s r : ustring) :
  Forall (fun a => 0 < length a) alts ->
  match_alternatives alts s = Some r -> length r < length s.
Proof.
  induction 1 as [|a alts Ha _ IH]; simpl; [discriminate|].
  destruct (match_literal a s) eqn:E; [|exact IH].
  intros [= <-]; apply match_literal_length in E; lia.
Qed.

Lemma match_size_pattern_shorter (s r : ustring) :
  match_size_pattern s = Some r -> length r < length s.
Proof.
  unfold match_size_pattern.
  destruct (match_alternatives SIZE_TOKENS (skip_pattern_spaces s))
    as [l|] eqn:E; [|discriminate].
  intros [= <-].
  apply match_alternatives_length in E.
  - pose proof (skip_pattern_spaces_length s).
    pose proof (skip_pattern_spaces_length l). lia.
  - repeat constructor.
Qed.

(** Any fuel from [length s] on gives the same result: the branch for an
    exhausted fuel is never taken with input left. *)
Lemma re_sub_size_fuel (n m : nat) (s : ustring) :
  length s <= n -> length s <= m -> re_sub_size n s = re_sub_size m s.
Proof.
  revert m s; induction n as [|n IH]; intros m s Hn Hm.
  - destruct s; [|simpl in Hn; lia]. now destruct m.
  - destruct s as [|c rest]; [now destruct m|].
    destruct m as [|m]; [simpl in Hm; lia|].
    cbn [re_sub_size].
    destruct (match_size_pattern (c :: rest)) as [after|] eqn:E.
    + apply match_size_pattern_shorter in E.
      apply IH; simpl in *; lia.
    + f_equal; apply IH; simpl in *; lia.
Qed.

(** ** Sums *)





Lemma Qc_ltb_lt (x y : Qc) : Qc_ltb x y = true <-> (x < y)%Qc.
Proof.
  unfold Qc_ltb; rewrite Qclt_alt.
  destruct (x ?= y)%Qc; split; congruence.
Qed.




(** ** sort_values is a stable permutation *)

Section SortingFacts.
Context {R : Type} (by_ : R -> list cell).

Lemma insert_row_perm (x : R) (l : list R) :
  Permutation (insert_row by_ x l) (x :: l).
Proof.
  induction l as [|y l IH]; simpl; [reflexivity|].
  destruct (row_leb by_ x y); [reflexivity|].
  rewrite IH; apply perm_swap.
Qed.

Lemma sort_values_perm (l : list R) : Permutation (sort_values by_ l) l.
Proof.
  induction l as [|x l IH]; simpl; [reflexivity|].
  now rewrite insert_row_perm, IH.
Qed.


End SortingFacts.

(** ** sort_values sorts *)

Lemma ustring_compare_antisym (a b : ustring) :
  ustring_compare b a = CompOpp (ustring_compare a b).
Proof.
  revert b; induction a as [|x a IH]; intros [|y b]; simpl; try reflexivity.
  rewrite (N.compare_antisym x y).
  destruct (x ?= y)%N; simpl; auto.
Qed.

Lemma cell_compare_antisym (a b : cell) :
  cell_compare b a = CompOpp (cell_compare a b).
Proof.
  destruct a, b; simpl; try reflexivity.
  - apply ustring_compare_antisym.
  - unfold Qccompare; now rewrite <- Qcompare_antisym.
Qed.

Lemma key_compare_antisym (a b : list cell) :
  key_compare b a = CompOpp (key_compare a b).
Proof.
  revert b; induction a as [|x a IH]; intros [|y b]; simpl; try reflexivity.
  rewrite (cell_compare_antisym x y).
  destruct (cell_compare x y); simpl; auto.
Qed.

Section SortedFacts.
Context {R : Type} (by_ : R -> list cell).

Lemma row_leb_total (x y : R) : row_leb by_ x y = false -> row_leb by_ y x = true.
Proof.
  unfold row_leb; rewrite (key_compare_antisym (by_ x) (by_ y)).
  now destruct (key_compare (by_ x) (by_ y)).
Qed.

Lemma insert_row_sorted (x : R) (l : list R) :
  Sorted (fun a b => row_leb by_ a b = true) l ->
  Sorted (fun a b => row_leb by_ a b = true) (insert_row by_ x l).
Proof.
  induction 1 as [|y l Hl IH Hy]; simpl; [repeat constructor|].
  destruct (row_leb by_ x y) eqn:E.
  - repeat constructor; assumption.
  - constructor; [exact IH|].
    destruct Hy as [|z l Hz]; simpl.
    + constructor; now apply row_leb_total.
    + destruct (row_leb by_ x z); constructor;
        [now apply row_leb_total|exact Hz].
Qed.

(** The rows leave [sort_values] in key order. *)
Lemma sort_values_sorted (l : list R) :
  Sorted (fun a b => row_leb by_ a b = true) (sort_values by_ l).
Proof.
  induction l as [|x l IH]; simpl; [constructor|].
  now apply insert_row_sorted.
Qed.
End SortedFacts.

Lemma sort_df_perm `{Runtime} {R : Type} (df : list R) (cols : list (sort_col R)) :
  Permutation (sort_df_with_custom_size df cols) df.
Proof.
  destruct df as [|x df]; [reflexivity|].
  apply sort_values_perm.
Qed.


(** ** groupby puts every kept row in exactly one group *)

Section GroupFacts.
Context {R : Type} (key : R -> list cell).




Lemma unique_by_incl (l : list R) (g : R) : In g (unique_by key l) -> In g l.
Proof.
  induction l as [|x l IH]; simpl; [tauto|].
  intros [->|Hin]; [now left|].
  apply filter_In in Hin; right; apply IH; tauto.
Qed.


Lemma sum_no_group (v : Qc) (k : list cell) (U : list R) :
  ~ In k (map key U) ->
  sum_qty (map (fun g => if key_eqb k (key g) then v else 0%Qc) U) = 0%Qc.
Proof.
  induction U as [|g U IH]; simpl; intros Hk; [reflexivity|].
  destruct (key_eqb k (key g)) eqn:E.
  - apply key_eqb_eq in E; exfalso; apply Hk; now left.
  - rewrite IH; [ring|tauto].
Qed.

End GroupFacts.

(** ** The scan visits exactly the region *)

Lemma bind_done {A B : Type} (c : outcome A) (k : A -> outcome B) (b : B) :
  (x <- c ;; k x) = Done b -> exists a, c = Done a /\ k a = Done b.
Proof. destruct c; simpl; try discriminate; eauto. Qed.

Lemma nth_cell_done (row : list cell) (c : nat) (x : cell) :
  nth_cell row c = Done x -> nth c row NaN = x.
Proof.
  unfold nth_cell; destruct (nth_error row c) eqn:E; try discriminate.
  intros [= <-]; now apply nth_error_nth.
Qed.

Lemma iloc_done (df : table) (r c : nat) (x : cell) :
  iloc df r c = Done x -> cell_at df r c = x.
Proof.
  unfold iloc, cell_at; destruct (nth_error df r) eqn:E; try discriminate.
  intros Hx; rewrite (nth_error_nth _ _ _ E); now apply nth_cell_done.
Qed.

Lemma mapM_done {A B : Type} (f : A -> outcome B) (g : A -> B) (l : list A)
    (bs : list B) :
  (forall a b, f a = Done b -> g a = b) ->
  mapM f l = Done bs -> bs = map g l.
Proof.
  intros Hfg; revert bs; induction l as [|a l IH]; simpl; intros bs.
  - now intros [= <-].
  - intros Hb; apply bind_done in Hb; destruct Hb as (b & Hb & Hr).
    apply bind_done in Hr; destruct Hr as (bs' & Hbs & [= <-]).
    f_equal; auto using eq_sym.
Qed.

Lemma iloc_column_done (df : table) (c : nat) (xs : list cell) :
  iloc_column df c = Done xs ->
  xs = map (fun row => nth c row NaN) (df_data df).
Proof.
  unfold iloc_column; destruct (c <? total_cols df); try discriminate.
  apply mapM_done; intros; now apply nth_cell_done.
Qed.

Lemma py_range_blocks (n : nat) :
  py_range IDX_STORE_START n 3 = map block_col (seq 0 ((n - 37 + 2) / 3)).
Proof. reflexivity. Qed.

Section RegionFacts.
Context `{Runtime}.

Lemma scan_region (df : table) (ks : list nat) (blocks : list (list block_row)) :
  scan_store_blocks df (map block_col ks) = Done blocks ->
  concat blocks = flat_map (region_block_rows df) (take_while (in_region df) ks).
Proof.
  revert blocks; induction ks as [|k ks IH]; intros blocks.
  - now intros [= <-].
  - cbn [map scan_store_blocks take_while].
    unfold in_region at 1, block_complete.
    rewrite Nat.ltb_antisym.
    destruct (total_cols df <=? block_col k + 2); cbn [negb andb].
    + now intros [= <-].
    + intros Hb; apply bind_done in Hb; destruct Hb as (h & Hh & Hb).
      apply iloc_done in Hh.
      unfold header_has_stop; rewrite Hh; revert Hb; cbv zeta.
      destruct (contains STOP_COLUMN_KEYWORD (text_or_empty h));
        cbn [negb]; intros Hb.
      * injection Hb as <-; reflexivity.
      * apply bind_done in Hb; destruct Hb as (c & Hc & Hb).
        apply bind_done in Hb; destruct Hb as (n & Hn & Hb).
        apply bind_done in Hb; destruct Hb as (q & Hq & Hb).
        apply bind_done in Hb; destruct Hb as (tl & Htl & Hb).
        apply iloc_done in Hc, Hn; apply iloc_column_done in Hq.
        change (flat_map (region_block_rows df)
                  (k :: take_while (in_region df) ks))
          with (region_block_rows df k
                  ++ flat_map (region_block_rows df)
                       (take_while (in_region df) ks)).
        rewrite <- (IH _ Htl).
        unfold region_block_rows; rewrite Hc, Hn, <- Hq.
        injection Hb as <-.
        destruct (block_of _ _ q); reflexivity.
Qed.

Lemma take_while_app_stop {A : Type} (p : A -> bool) (l1 l2 : list A) (x : A) :
  p x = false -> take_while p (l1 ++ x :: l2) = take_while p l1.
Proof.
  intros Hx; induction l1 as [|y l1 IH]; simpl.
  - now rewrite Hx.
  - now rewrite IH.
Qed.

Lemma region_blocks_range (df : table) :
  region_blocks df
  = take_while (in_region df) (seq 0 ((total_cols df - 37 + 2) / 3)).
Proof.
  unfold region_blocks.
  set (n := total_cols df); set (m := (n - 37 + 2) / 3).
  assert (Hm : n - 37 + 2 < 3 * (m + 1)).
  { unfold m. pose proof (Nat.div_mod_eq (n - 37 + 2) 3) as E.
    pose proof (Nat.mod_upper_bound (n - 37 + 2) 3 ltac:(lia)). lia. }
  assert (Hle : m <= n).
  { unfold m. pose proof (Nat.div_mod_eq (n - 37 + 2) 3) as E.
    destruct (Nat.le_gt_cases n 37) as [L|L].
    - replace (n - 37 + 2) with 2 in * by lia.
      change (2 / 3) with 0; lia.
    - lia. }
  destruct (Nat.eq_dec m n) as [->|Hne]; [reflexivity|].
  replace n with (m + (1 + (n - m - 1))) at 1 by lia.
  rewrite seq_app, seq_app; simpl.
  apply take_while_app_stop.
  unfold in_region, block_complete, block_col, IDX_STORE_START; fold n.
  replace (37 + 3 * m + 2 <? n) with false; [reflexivity|].
  symmetry; apply Nat.ltb_ge; lia.
Qed.

Lemma store_data_list_region (df : table) (blocks : list (list block_row)) :
  store_data_list df = Done blocks ->
  concat blocks = flat_map (region_block_rows df) (region_blocks df).
Proof.
  unfold store_data_list; rewrite py_range_blocks, region_blocks_range.
  apply scan_region.
Qed.

Lemma take_while_seq_prefix (p : nat -> bool) (a n j : nat) :
  In j (take_while p (seq a n)) ->
  forall i, a <= i <= j -> p i = true.
Proof.
  revert a; induction n as [|n IH]; intros a; simpl; [tauto|].
  destruct (p a) eqn:E; simpl; [|tauto].
  intros [<-|Hin] i Hi.
  - now replace i with a by lia.
  - destruct (Nat.eq_dec i a) as [->|Hne]; [exact E|].
    apply (IH _ Hin); split; [lia|tauto].
Qed.

Lemma region_blocks_before_stop (df : table) (k j : nat) :
  header_has_stop df k = true -> In j (region_blocks df) -> j < k.
Proof.
  intros Hk Hj.
  destruct (Nat.lt_ge_cases j k) as [L|L]; [exact L|exfalso].
  pose proof (@take_while_seq_prefix _ _ _ _ Hj k ltac:(lia)) as P.
  unfold in_region in P; rewrite Hk, andb_false_r in P; discriminate.
Qed.

Lemma region_blocks_complete (df : table) (j : nat) :
  In j (region_blocks df) ->
  block_complete df j = true /\ header_has_stop df j = false.
Proof.
  intros Hj.
  pose proof (@take_while_seq_prefix _ _ _ _ Hj j) as P.
  assert (In j (seq 0 (total_cols df))) as S.
  { clear P; unfold region_blocks in Hj.
    induction (seq 0 (total_cols df)) as [|x l IH]; simpl in *; [tauto|].
    destruct (in_region df x); simpl in Hj; tauto. }
  apply in_seq in S; specialize (P ltac:(lia)); unfold in_region in P.
  apply andb_prop in P; destruct P as [P1 P2].
  split; [exact P1|now apply negb_true_iff].
Qed.
End RegionFacts.


(** ** What final_df returns *)

Lemma final_df_done `{Runtime} (df : table) (final : list Fact) :
  final_df df = Done final ->
  26 < total_cols df /\
  exists base blocks,
    base_df df = Done base /\ store_data_list df = Done blocks /\
    blocks <> [] /\ positional_join base (concat blocks) = Done final.
Proof.
  unfold final_df.
  destruct (total_cols df <=? 26) eqn:E; [discriminate|].
  apply Nat.leb_gt in E; intros Hf; split; [exact E|].
  apply bind_done in Hf; destruct Hf as (base & Hbase & Hf).
  apply bind_done in Hf; destruct Hf as (blocks & Hblocks & Hf).
  exists base, blocks; repeat split; auto.
  - intros ->; discriminate.
  - destruct blocks; [discriminate|exact Hf].
Qed.

Lemma positional_join_rows `{Runtime} (base : list base_row)
    (long_df : list block_row) (final : list Fact) :
  positional_join base long_df = Done final ->
  map fact_block_row final = long_df.
Proof.
  unfold positional_join; revert final.
  induction long_df as [|k l IH]; simpl; intros final.
  - now intros [= <-].
  - intros Hf; apply bind_done in Hf; destruct Hf as (f & Hf & Hr).
    apply bind_done in Hr; destruct Hr as (fs & Hfs & [= <-]).
    simpl; rewrite (IH _ Hfs); f_equal.
    destruct (nth_error base (k_original_index k)); [|discriminate].
    injection Hf as <-; now destruct k.
Qed.

Lemma final_df_region `{Runtime} (df : table) (final : list Fact) :
  final_df df = Done final ->
  map fact_block_row final = flat_map (region_block_rows df) (region_blocks df).
Proof.
  intros Hf; apply final_df_done in Hf.
  destruct Hf as (_ & base & blocks & _ & Hb & _ & Hj).
  rewrite (positional_join_rows _ _ Hj).
  now apply store_data_list_region.
Qed.

(** C3.  When the header of block [k] holds the stop keyword, the facts are
    exactly the rows of the blocks of the region, in order, and every
    block of the region has an index below [k] and its three columns inside
    the table. *)
Theorem stop_marker_respected `{Runtime} (df : table) (k : nat)
    (final : list Fact) :
  header_has_stop df k = true ->
  final_df df = Done final ->
  map fact_block_row final
    = flat_map (region_block_rows df) (region_blocks df) /\
  Forall (fun j => j < k /\ block_col j + 2 < total_cols df) (region_blocks df).
Proof.
  intros Hk Hf; split; [now apply final_df_region|].
  apply Forall_forall; intros j Hj; split.
  - now apply region_blocks_before_stop with (df := df).
  - apply region_blocks_complete in Hj; destruct Hj as [Hc _].
    now apply Nat.ltb_lt in Hc.
Qed.

Lemma stop_marker_respected_witness :
  map fact_block_row sample_final
    = flat_map (@region_block_rows reference_runtime sample_table)
        (@region_blocks reference_runtime sample_table) /\
  Forall (fun j => j < 2 /\ block_col j + 2 < total_cols sample_table)
    (@region_blocks reference_runtime sample_table).
Proof.
  apply (@stop_marker_respected reference_runtime sample_table 2 sample_final).
  - vm_compute; reflexivity.
  - vm_compute; reflexivity.
Defined.


(** ** Quantities of a block and of the reports *)

Lemma enumerate_snd {A : Type} (l : list A) : map snd (enumerate l) = l.
Proof.
  unfold enumerate; generalize 0.
  induction l as [|x l IH]; intros n; simpl; [reflexivity|].
  now rewrite IH.
Qed.

Lemma map_filter_comm {A B : Type} (f : A -> B) (p : B -> bool) (l : list A) :
  map f (filter (fun a => p (f a)) l) = filter p (map f l).
Proof.
  induction l as [|x l IH]; simpl; [reflexivity|].
  destruct (p (f x)); simpl; now rewrite IH.
Qed.

Lemma block_of_quantities `{Runtime} (c n : ustring) (cells : list cell) :
  map k_qty (block_of c n cells)
  = filter (Qc_ltb 0) (map (fun x => fillna0 (to_numeric x)) cells).
Proof.
  unfold block_of.
  rewrite (map_filter_comm k_qty (Qc_ltb 0)), map_map; simpl.
  now rewrite <- (map_map snd (fun x => fillna0 (to_numeric x))), enumerate_snd.
Qed.

Lemma region_block_quantities `{Runtime} (df : table) (k : nat) :
  map k_qty (region_block_rows df k)
  = filter (Qc_ltb 0) (block_quantities df k).
Proof.
  unfold region_block_rows, block_quantities.
  now rewrite block_of_quantities, map_map.
Qed.



Lemma filter_all {A : Type} (p : A -> bool) (l : list A) :
  (forall a, p a = true) -> filter p l = l.
Proof.
  intros Hp; induction l as [|x l IH]; simpl; [reflexivity|].
  now rewrite Hp, IH.
Qed.


Lemma store_key_dropna (df : list Fact) : dropna store_key df = df.
Proof. apply filter_all; reflexivity. Qed.





(** ** Only positive quantities *)

Lemma in_combine_seq {A : Type} (l : list A) (a i : nat) (x : A) :
  In (i, x) (combine (seq a (length l)) l) <->
  a <= i /\ nth_error l (i - a) = Some x.
Proof.
  revert a; induction l as [|y l IH]; intros a; simpl.
  - split; [tauto|]. intros [_ E]; destruct (i - a); discriminate.
  - rewrite IH; split.
    + intros [[= <- <-]|[L E]].
      * now rewrite Nat.sub_diag.
      * replace (i - a) with (S (i - S a)) by lia. split; [lia|exact E].
    + intros [L E].
      destruct (Nat.eq_dec a i) as [->|Hne].
      * rewrite Nat.sub_diag in E; injection E as ->; now left.
      * right; split; [lia|].
        replace (i - a) with (S (i - S a)) in E by lia; exact E.
Qed.

Lemma in_enumerate {A : Type} (l : list A) (i : nat) (x : A) :
  In (i, x) (enumerate l) <-> nth_error l i = Some x.
Proof.
  unfold enumerate; rewrite in_combine_seq, Nat.sub_0_r.
  split; [tauto|]. intros E; split; [lia|exact E].
Qed.

Lemma block_of_spec `{Runtime} (c n : ustring) (cells : list cell) (b : block_row) :
  In b (block_of c n cells) <->
  exists i x,
    nth_error cells i = Some x /\
    (0 < fillna0 (to_numeric x))%Qc /\
    b = {| k_store_code := c; k_store_name := n;
           k_qty := fillna0 (to_numeric x); k_original_index := i |}.
Proof.
  unfold block_of; rewrite filter_In, in_map_iff; split.
  - intros (([i x] & <- & Hp) & Hq); simpl in *.
    exists i, x; repeat split.
    + now apply in_enumerate.
    + now apply Qc_ltb_lt.
  - intros (i & x & E & Hq & ->); simpl; split.
    + exists (i, x); split; [reflexivity|now apply in_enumerate].
    + now apply Qc_ltb_lt.
Qed.



Section GroupMembers.
Context {R : Type} (key : R -> list cell).

Lemma dropna_In (df : list R) (r : R) :
  In r (dropna key df) <-> In r df /\ existsb isna (key r) = false.
Proof.
  unfold dropna; rewrite filter_In, negb_true_iff; tauto.
Qed.

Lemma groupby_In (df : list R) (g : R * list R) :
  In g (groupby key df) ->
  In (fst g) (dropna key df) /\
  snd g = filter (fun r => key_eqb (key r) (key (fst g))) (dropna key df).
Proof.
  unfold groupby; rewrite in_map_iff; intros (x & <- & Hx); simpl.
  split; [|reflexivity]. now apply unique_by_incl in Hx.
Qed.

Lemma groupby_member (df : list R) (g : R * list R) :
  In g (groupby key df) -> In (fst g) (snd g).
Proof.
  intros Hg; apply groupby_In in Hg; destruct Hg as [Hin ->].
  apply filter_In; split; [exact Hin|apply key_eqb_refl].
Qed.


Lemma groupby_sum_In (v : R -> Qc) (df : list R) (x : R * Qc) :
  In x (groupby_sum key v df) ->
  exists g, In g (groupby key df) /\ fst x = fst g
            /\ snd x = sum_qty (map v (snd g)).
Proof.
  unfold groupby_sum; rewrite in_map_iff; intros (g & <- & Hg).
  exists g; repeat split.
  eapply Permutation_in; [apply sort_values_perm|exact Hg].
Qed.

End GroupMembers.

Lemma sort_df_In `{Runtime} {R : Type} (df : list R) (cols : list (sort_col R))
    (r : R) :
  In r (sort_df_with_custom_size df cols) <-> In r df.
Proof.
  split; apply Permutation_in;
    [apply sort_df_perm|symmetry; apply sort_df_perm].
Qed.







(** ** The core does not raise *)

Lemma nth_cell_total (row : list cell) (c : nat) :
  c < length row -> exists x, nth_cell row c = Done x.
Proof.
  intros L; unfold nth_cell.
  destruct (nth_error row c) eqn:E; [eauto|].
  apply nth_error_None in E; lia.
Qed.

Lemma mapM_total {A B : Type} (f : A -> outcome B) (l : list A) :
  (forall a, In a l -> exists b, f a = Done b) ->
  exists bs, mapM f l = Done bs /\ length bs = length l.
Proof.
  induction l as [|a l IH]; simpl; intros Hf; [now exists []|].
  destruct (Hf a) as [b Hb]; [now left|].
  destruct IH as (bs & Hbs & L); [intros; apply Hf; now right|].
  exists (b :: bs); rewrite Hb, Hbs; simpl; split; [reflexivity|lia].
Qed.

Section Totality.
Context `{Runtime} (df : table).
Hypothesis Hrect : rectangular df = true.
Hypothesis Hrows : 2 <= length df.

Lemma row_length (row : list cell) : In row df -> length row = total_cols df.
Proof.
  intros Hin; unfold rectangular in Hrect.
  rewrite forallb_forall in Hrect; now apply Nat.eqb_eq, Hrect.
Qed.

Lemma df_data_rows (row : list cell) : In row (df_data df) -> In row df.
Proof.
  unfold df_data, ROW_IDX_DATA_START.
  destruct df; simpl; [tauto|]; now right.
Qed.

Lemma iloc_total (r c : nat) :
  r < 2 -> c < total_cols df -> exists x, iloc df r c = Done x.
Proof.
  intros Hr Hc; unfold iloc.
  destruct (nth_error df r) as [row|] eqn:E.
  - apply nth_cell_total; rewrite row_length; [exact Hc|].
    now apply nth_error_In in E.
  - apply nth_error_None in E; lia.
Qed.

Lemma iloc_column_total (c : nat) :
  c < total_cols df ->
  exists xs, iloc_column df c = Done xs /\ length xs = length (df_data df).
Proof.
  intros Hc; unfold iloc_column.
  apply Nat.ltb_lt in Hc as Hc'; rewrite Hc'.
  apply mapM_total; intros row Hin.
  apply nth_cell_total; rewrite row_length; auto using df_data_rows.
Qed.

Lemma base_df_total :
  26 < total_cols df ->
  exists base, base_df df = Done base /\ length base = length (df_data df).
Proof.
  intros Hc; unfold base_df; apply mapM_total; intros row Hin.
  assert (L : length row = total_cols df)
    by auto using row_length, df_data_rows.
  unfold base_row_of,
    COL_IDX_DELIVERY_DATE, COL_IDX_CLIENT_NAME, COL_IDX_MK_CODE,
    COL_IDX_PROD_NAME, COL_IDX_COLOR_CODE, COL_IDX_COLOR_NAME,
    COL_IDX_SIZE_NAME, COL_IDX_JAN.
  destruct (@nth_cell_total row 3) as [x1 ->]; [lia|].
  destruct (@nth_cell_total row 8) as [x2 ->]; [lia|].
  destruct (@nth_cell_total row 14) as [x3 ->]; [lia|].
  destruct (@nth_cell_total row 15) as [x4 ->]; [lia|].
  destruct (@nth_cell_total row 21) as [x5 ->]; [lia|].
  destruct (@nth_cell_total row 23) as [x6 ->]; [lia|].
  destruct (@nth_cell_total row 25) as [x7 ->]; [lia|].
  destruct (@nth_cell_total row 16) as [x8 ->]; [lia|].
  simpl; eauto.
Qed.

Lemma block_of_indices (c n : ustring) (cells : list cell) :
  Forall (fun b => k_original_index b < length cells) (block_of c n cells).
Proof.
  apply Forall_forall; intros b Hb.
  apply block_of_spec in Hb; destruct Hb as (i & x & E & _ & ->); simpl.
  apply nth_error_Some; congruence.
Qed.

Lemma scan_total (cols : list nat) :
  exists blocks,
    scan_store_blocks df cols = Done blocks /\
    Forall (Forall (fun b => k_original_index b < length (df_data df))) blocks.
Proof.
  induction cols as [|i cols IH]; [exists []; split; [reflexivity|constructor]|].
  cbn [scan_store_blocks].
  destruct (total_cols df <=? i + 2) eqn:E;
    [exists []; split; [reflexivity|constructor]|].
  apply Nat.leb_gt in E.
  destruct (@iloc_total ROW_IDX_STORE_INFO i) as [h ->];
    [unfold ROW_IDX_STORE_INFO; lia|lia|]; cbn [bind]; cbv zeta.
  destruct (contains STOP_COLUMN_KEYWORD (text_or_empty h));
    [exists []; split; [reflexivity|constructor]|].
  destruct (@iloc_total ROW_IDX_DATA_START i) as [c ->];
    [unfold ROW_IDX_DATA_START; lia|lia|]; cbn [bind].
  destruct (@iloc_total ROW_IDX_DATA_START (i + 1)) as [n ->];
    [unfold ROW_IDX_DATA_START; lia|lia|]; cbn [bind].
  destruct (@iloc_column_total (i + 2)) as (q & -> & L); [lia|]; cbn [bind].
  destruct IH as (tl & -> & Htl); cbn [bind].
  pose proof (block_of_indices (stripped_or_empty c) (stripped_or_empty n) q)
    as P; rewrite L in P.
  destruct (block_of _ _ q) eqn:B; eexists; split; try reflexivity; auto.
Qed.

Lemma positional_join_total (base : list base_row) (long_df : list block_row) :
  Forall (fun b => k_original_index b < length base) long_df ->
  exists final, positional_join base long_df = Done final.
Proof.
  intros Hl; unfold positional_join.
  destruct (@mapM_total _ _
              (fun k => match nth_error base (k_original_index k) with
                        | Some b => Done (join_row b k)
                        | None => Raised IndexError
                        end) long_df) as (final & Hf & _); [|eauto].
  intros k Hk; rewrite Forall_forall in Hl; specialize (Hl _ Hk).
  destruct (nth_error base (k_original_index k)) eqn:E; [eauto|].
  apply nth_error_None in E; lia.
Qed.

Lemma final_df_total :
  26 < total_cols df ->
  (exists final, final_df df = Done final)
  \/ final_df df = Skipped NoUsableData.
Proof.
  intros Hc; unfold final_df.
  apply Nat.leb_gt in Hc as Hc'; rewrite Hc'.
  destruct (base_df_total Hc) as (base & -> & Lb); cbn [bind].
  unfold store_data_list.
  destruct (scan_total (py_range IDX_STORE_START (total_cols df) 3))
    as (blocks & -> & Hb); cbn [bind].
  destruct blocks as [|b blocks]; [now right|left].
  apply positional_join_total.
  rewrite Lb; apply Forall_concat; exact Hb.
Qed.
End Totality.

(** C9.  On a rectangular table with more than 26 columns and at least two
    rows the core never raises: it returns the three reports, or leaves
    early because no store block has a positive quantity. *)
Theorem core_total `{Runtime} (df : table) :
  rectangular df = true ->
  26 < total_cols df ->
  2 <= length df ->
  (exists r, core df = Done r) \/ core df = Skipped NoUsableData.
Proof.
  intros Hrect Hc Hrows; unfold core.
  destruct (final_df_total df Hrect Hrows Hc) as [(final & ->)| ->];
    [left; simpl; eauto|now right].
Qed.

Lemma core_total_witness :
  (exists r, @core reference_runtime sample_table = Done r)
  \/ @core reference_runtime sample_table = Skipped NoUsableData.
Proof.
  apply (@core_total reference_runtime sample_table);
    [reflexivity | vm_compute; lia | simpl; lia].
Defined.

(** The bound on the rows is needed: with the header row alone the read of
    the store code at [df.iloc[ROW_IDX_DATA_START, i]] raises. *)
Example one_row_table_raises :
  @core reference_runtime one_row_table = Raised IndexError.
Proof. vm_compute; reflexivity. Qed.


(** ** Groups and totals *)

Section GroupTotals.
Context {R : Type} (key : R -> list cell).








End GroupTotals.


(** ** What the three reports count *)

Section ReportTotals.
Context `{Runtime} (final : list Fact).


Lemma out2_base_center (r : center_row) :
  In r (out2_base final) -> isna (n_center r) = false.
Proof.
  unfold out2_base; rewrite in_map_iff; intros (x & <- & Hx); simpl.
  apply groupby_sum_In in Hx; destruct Hx as (g & Hg & -> & _).
  apply groupby_In in Hg; destruct Hg as [Hg _].
  apply dropna_In in Hg; destruct Hg as [_ Hg].
  simpl in Hg; now apply orb_false_elim in Hg.
Qed.




End ReportTotals.





(** ** Missing grouping fields *)





(** ** Determinism *)



(** ** Failures of one file *)

(** C8.  The first workbook of the first file cannot be written: the
    exception leaves [process_single_csv] and [main], nothing is written for
    that file, and the second file is never processed. *)
Theorem render_failure_ends_run :
  @main reference_runtime [locked_report1_file; sample_file_utf8]
  = ([], Some RenderError).
Proof. vm_compute; reflexivity. Qed.

(** A failure of the third workbook is caught: the first two workbooks of
    the file are written and the next file is processed. *)
Lemma report3_failure_contained :
  snd (@main reference_runtime [locked_report3_file; sample_file_utf8]) = None
  /\ length (written (fst (@main reference_runtime
                             [locked_report3_file; sample_file_utf8]))) = 5.
Proof. vm_compute; split; reflexivity. Qed.

(** A table of one row and a full store block raises as well, uncaught. *)
Lemma one_row_file_ends_run :
  @main reference_runtime
    [{| read_utf8 := ReadOk one_row_table; read_cp932 := ReadError;
        writable := always_writable |}; sample_file_utf8]
  = ([], Some IndexError).
Proof. vm_compute; reflexivity. Qed.

(** What the code does contain: a read failure, the two skips, and a
    failure of the third workbook all return normally, so that the loop of
    [main] goes on to the next file. *)
Lemma contained_failures `{Runtime} (f : csv_file) :
  snd (read_csv f) = None \/
  (exists df,
      snd (read_csv f) = Some df /\
      (total_cols df <= 26 \/ final_df df = Skipped NoUsableData \/
       (exists final, final_df df = Done final /\
                      writable f Report1 = true /\ writable f Report2 = true))) ->
  snd (process_single_csv f) = None.
Proof.
  unfold process_single_csv.
  destruct (read_csv f) as [log o]; cbn [snd].
  intros [->|(df & -> & Hdf)]; [reflexivity|].
  destruct Hdf as [Hc|[->|(final & -> & -> & ->)]].
  - unfold final_df; apply Nat.leb_le in Hc; now rewrite Hc.
  - reflexivity.
  - now destruct (writable f Report3).
Qed.

(** * Further properties of the code *)

(** ** The order of sort_values *)

Lemma ustring_compare_lt_trans (a b c : ustring) :
  ustring_compare a b = Lt -> ustring_compare b c = Lt ->
  ustring_compare a c = Lt.
Proof.
  revert b c; induction a as [|x a IH]; intros [|y b] [|z c]; simpl;
    try discriminate; auto.
  destruct (N.compare_spec x y) as [->|Hxy|Hxy]; try discriminate;
    destruct (N.compare_spec y z) as [->|Hyz|Hyz]; try discriminate.
  - apply IH.
  - reflexivity.
  - intros _ _; now rewrite (proj2 (N.compare_lt_iff _ _) Hxy).
  - intros _ _.
    now rewrite (proj2 (N.compare_lt_iff _ _) (N.lt_trans _ _ _ Hxy Hyz)).
Qed.

Lemma cell_compare_lt_trans (a b c : cell) :
  cell_compare a b = Lt -> cell_compare b c = Lt -> cell_compare a c = Lt.
Proof.
  destruct a, b, c; simpl; try discriminate; auto.
  - apply ustring_compare_lt_trans.
  - intros H1 H2; apply Qclt_alt in H1, H2; apply Qclt_alt.
    eapply Qclt_trans; eassumption.
Qed.

Lemma key_compare_lt_trans (a b c : list cell) :
  key_compare a b = Lt -> key_compare b c = Lt -> key_compare a c = Lt.
Proof.
  revert b c; induction a as [|x a IH]; intros [|y b] [|z c]; simpl;
    try discriminate; auto.
  destruct (cell_compare x y) eqn:Exy; try discriminate;
    destruct (cell_compare y z) eqn:Eyz; try discriminate.
  - apply cell_compare_eq in Exy, Eyz; subst.
    rewrite cell_compare_refl; apply IH.
  - apply cell_compare_eq in Exy; subst; now rewrite Eyz.
  - apply cell_compare_eq in Eyz; subst; now rewrite Exy.
  - now rewrite (cell_compare_lt_trans _ _ _ Exy Eyz).
Qed.

Lemma key_le_trans (a b c : list cell) : key_le a b -> key_le b c -> key_le a c.
Proof.
  unfold key_le; intros Hab Hbc.
  destruct (key_compare a b) eqn:Eab; [| |congruence].
  - apply key_compare_eq in Eab; now subst.
  - destruct (key_compare b c) eqn:Ebc; [| |congruence].
    + apply key_compare_eq in Ebc; subst; now rewrite Eab.
    + now rewrite (key_compare_lt_trans _ _ _ Eab Ebc).
Qed.

Lemma row_leb_key_le {R : Type} (by_ : R -> list cell) (x y : R) :
  row_leb by_ x y = true <-> key_le (by_ x) (by_ y).
Proof.
  unfold row_leb, key_le.
  destruct (key_compare (by_ x) (by_ y)); split; congruence.
Qed.

Lemma sort_values_strongly_sorted {R : Type} (by_ : R -> list cell) (l : list R) :
  StronglySorted (fun a b => key_le (by_ a) (by_ b)) (sort_values by_ l).
Proof.
  apply Sorted_StronglySorted.
  - intros a b c; apply key_le_trans.
  - pose proof (sort_values_sorted by_ l) as S.
    induction S as [|x l' _ IH Hd]; constructor; [exact IH|].
    destruct Hd; constructor; now apply row_leb_key_le.
Qed.

Lemma sort_df_strongly_sorted `{Runtime} {R : Type} (df : list R)
    (cols : list (sort_col R)) :
  StronglySorted
    (fun a b => key_le (actual_sort_key cols a) (actual_sort_key cols b))
    (sort_df_with_custom_size df cols).
Proof.
  destruct df as [|x df]; [constructor|].
  apply sort_values_strongly_sorted.
Qed.

(** X1.  [sort_df_with_custom_size] returns a rearrangement of its rows in
    which every row comes before all rows with a larger sort key, the
    size column counting by its rank. *)
Theorem sort_df_sorts `{Runtime} {R : Type} (df : list R)
    (cols : list (sort_col R)) :
  Permutation (sort_df_with_custom_size df cols) df /\
  StronglySorted
    (fun a b => key_le (actual_sort_key cols a) (actual_sort_key cols b))
    (sort_df_with_custom_size df cols).
Proof.
  split; [apply sort_df_perm|apply sort_df_strongly_sorted].
Qed.

Lemma rank_cell_compare (a b : nat) :
  cell_compare (rank_cell a) (rank_cell b) = (a ?= b).
Proof.
  unfold rank_cell, cell_compare, Qccompare, Q2Qc; cbn [this].
  rewrite <- Qred_compare.
  unfold Qcompare, inject_Z; cbn [Qnum Qden].
  rewrite !Z.mul_1_r; apply Nat2Z.inj_compare.
Qed.

Lemma StronglySorted_pair {A : Type} (Rel : A -> A -> Prop)
    (l1 l2 l3 : list A) (a b : A) :
  StronglySorted Rel (l1 ++ a :: l2 ++ b :: l3) -> Rel a b.
Proof.
  induction l1 as [|x l1 IH]; simpl; intros S.
  - apply StronglySorted_inv in S; destruct S as [_ F].
    rewrite Forall_forall in F; apply F.
    apply in_or_app; right; now left.
  - apply StronglySorted_inv in S; tauto.
Qed.

(** X2.  Within ByProduct, of two rows for the same product name, product
    code and color code the one listed first has the smaller or equal size
    rank: the sizes of one product and color appear in the order of
    [SIZE_ORDER], unknown sizes last. *)
Theorem by_product_size_order `{Runtime} (final : list Fact)
    (l1 l2 l3 : list checked_row) (a b : checked_row) :
  out1 final = l1 ++ a :: l2 ++ b :: l3 ->
  a_prod_name (c_row a) = a_prod_name (c_row b) ->
  a_code (c_row a) = a_code (c_row b) ->
  a_color_code (c_row a) = a_color_code (c_row b) ->
  size_rank (normalize_size_text (Text (a_size (c_row a))))
  <= size_rank (normalize_size_text (Text (a_size (c_row b)))).
Proof.
  intros E Hn Hc Hk.
  apply (f_equal (map c_row)) in E.
  unfold out1 in E; rewrite map_map in E; cbn [c_row] in E.
  rewrite map_id, !map_app in E; cbn [map] in E; rewrite map_app in E.
  cbn [map] in E.
  pose proof (sort_df_strongly_sorted
                (map agg_row_of (groupby_sum group_cols_1 qty final))
                product_sort_cols) as S.
  rewrite E in S; apply StronglySorted_pair in S.
  unfold key_le, actual_sort_key, product_sort_cols in S; cbn [map] in S.
  rewrite Hn, Hc, Hk in S; cbn [key_compare] in S.
  rewrite !cell_compare_refl, rank_cell_compare in S.
  destruct (Nat.compare_spec
              (size_rank (normalize_size_text (Text (a_size (c_row a)))))
              (size_rank (normalize_size_text (Text (a_size (c_row b))))))
    as [E'|L|G]; [lia|lia|now elim S].
Qed.

Lemma by_product_size_order_witness :
  size_rank (@normalize_size_text reference_runtime
               (Text (a_size (c_row (nth 0 sample_out1 blank_row)))))
  <= size_rank (@normalize_size_text reference_runtime
                  (Text (a_size (c_row (nth 1 sample_out1 blank_row))))).
Proof.
  apply (@by_product_size_order reference_runtime sample_final [] [] []
           (nth 0 sample_out1 blank_row) (nth 1 sample_out1 blank_row));
    vm_compute; reflexivity.
Defined.

(** ** No empty output *)

Lemma scan_blocks_nonempty `{Runtime} (df : table) (cols : list nat)
    (blocks : list (list block_row)) :
  scan_store_blocks df cols = Done blocks -> Forall (fun b => b <> []) blocks.
Proof.
  revert blocks; induction cols as [|i cols IH]; intros blocks.
  - intros [= <-]; constructor.
  - cbn [scan_store_blocks].
    destruct (total_cols df <=? i + 2); [intros [= <-]; constructor|].
    intros Hb; apply bind_done in Hb; destruct Hb as (h & _ & Hb).
    cbv zeta in Hb.
    destruct (contains STOP_COLUMN_KEYWORD (text_or_empty h));
      [injection Hb as <-; constructor|].
    apply bind_done in Hb; destruct Hb as (c & _ & Hb).
    apply bind_done in Hb; destruct Hb as (n & _ & Hb).
    apply bind_done in Hb; destruct Hb as (q & _ & Hb).
    apply bind_done in Hb; destruct Hb as (tl & Htl & Hb).
    injection Hb as <-; specialize (IH _ Htl).
    destruct (block_of _ _ q) eqn:B; [exact IH|].
    constructor; [discriminate|exact IH].
Qed.

Lemma concat_nonempty {A : Type} (ls : list (list A)) :
  ls <> [] -> Forall (fun l => l <> []) ls -> concat ls <> [].
Proof.
  intros Hne F; destruct F as [|l ls Hl _]; [congruence|].
  simpl; destruct l; [congruence|discriminate].
Qed.

Lemma final_df_nonempty `{Runtime} (df : table) (final : list Fact) :
  final_df df = Done final -> final <> [].
Proof.
  intros Hf; apply final_df_done in Hf.
  destruct Hf as (_ & base & blocks & _ & Hb & Hne & Hj).
  apply positional_join_rows in Hj.
  intros ->; simpl in Hj; symmetry in Hj; revert Hj.
  apply concat_nonempty; [exact Hne|].
  exact (scan_blocks_nonempty _ _ Hb).
Qed.

Lemma out3_sheets_nonempty `{Runtime} (final : list Fact) :
  Forall (fun s => df_out s <> []) (out3 final).
Proof.
  apply Forall_forall; intros s Hs.
  unfold out3, store_sheets in Hs; apply in_map_iff in Hs.
  destruct Hs as (g & <- & Hg); cbn [df_out].
  apply groupby_member in Hg.
  destruct (snd g); [contradiction|discriminate].
Qed.

Lemma out2_sheets_nonempty `{Runtime} (final : list Fact) :
  Forall (fun s => cs_rows s <> []) (out2 final).
Proof.
  apply Forall_forall; intros s Hs.
  unfold out2, center_sheets, centers in Hs; rewrite map_map in Hs.
  apply in_map_iff in Hs; destruct Hs as (r & <- & Hr); cbn [cs_rows].
  apply unique_by_incl in Hr.
  assert (In r (filter (fun r0 => py_eq (n_center r0) (n_center r))
                  (out2_base final))) as Hin.
  { apply filter_In; split; [exact Hr|].
    unfold py_eq, cell_eqb.
    now rewrite (out2_base_center _ _ Hr), cell_compare_refl. }
  eapply sort_df_In, (in_map n_row) in Hin.
  intros E; rewrite E in Hin; exact Hin.
Qed.

(** X3.  A long table that is returned is never empty, so the store report
    has at least one sheet; and no sheet of the store report or of the
    center report is empty. *)
Theorem no_empty_output `{Runtime} (df : table) (final : list Fact) :
  final_df df = Done final ->
  final <> [] /\ out3 final <> [] /\
  Forall (fun s => df_out s <> []) (out3 final) /\
  Forall (fun s => cs_rows s <> []) (out2 final).
Proof.
  intros Hf; apply final_df_nonempty in Hf.
  split; [exact Hf|]. split; [|split].
  - assert (P : Permutation (out3_base final) final) by apply sort_df_perm.
    unfold out3, store_sheets, groupby.
    rewrite store_key_dropna.
    destruct (out3_base final) as [|x o3] eqn:E; [|discriminate].
    apply Permutation_nil in P; congruence.
  - apply out3_sheets_nonempty.
  - apply out2_sheets_nonempty.
Qed.

Lemma no_empty_output_witness :
  sample_final <> [] /\ @out3 reference_runtime sample_final <> [] /\
  Forall (fun s => df_out s <> []) (@out3 reference_runtime sample_final) /\
  Forall (fun s => cs_rows s <> []) (@out2 reference_runtime sample_final).
Proof.
  apply (@no_empty_output reference_runtime sample_table sample_final).
  vm_compute; reflexivity.
Defined.

(** ** Store partitions *)



(** ** The unpivot is exact *)

Lemma mapM_In {A B : Type} (f : A -> outcome B) (l : list A) (bs : list B)
    (b : B) :
  mapM f l = Done bs -> In b bs -> exists a, In a l /\ f a = Done b.
Proof.
  revert bs; induction l as [|a l IH]; simpl; intros bs.
  - intros [= <-] [].
  - intros Hb; apply bind_done in Hb; destruct Hb as (b0 & Hb0 & Hr).
    apply bind_done in Hr; destruct Hr as (bs' & Hbs & [= <-]).
    intros [<-|Hin]; [eauto|].
    destruct (IH _ Hbs Hin) as (a' & Ha & Hf); eauto.
Qed.

Lemma mapM_nth {A B : Type} (f : A -> outcome B) (l : list A) (bs : list B)
    (i : nat) (b : B) :
  mapM f l = Done bs -> nth_error bs i = Some b ->
  exists a, nth_error l i = Some a /\ f a = Done b.
Proof.
  revert bs i; induction l as [|a l IH]; simpl; intros bs i.
  - intros [= <-]; destruct i; discriminate.
  - intros Hb; apply bind_done in Hb; destruct Hb as (b0 & Hb0 & Hr).
    apply bind_done in Hr; destruct Hr as (bs' & Hbs & [= <-]).
    destruct i as [|i]; simpl; [intros [= <-]; eauto|].
    apply IH; exact Hbs.
Qed.

Lemma base_row_of_done (row : list cell) (b : base_row) :
  base_row_of row = Done b ->
  b_delivery_date b = nth COL_IDX_DELIVERY_DATE row NaN /\
  b_client_name b = nth COL_IDX_CLIENT_NAME row NaN /\
  b_mk_code b = nth COL_IDX_MK_CODE row NaN /\
  b_prod_name b = nth COL_IDX_PROD_NAME row NaN /\
  b_color_code b = nth COL_IDX_COLOR_CODE row NaN /\
  b_color_name b = nth COL_IDX_COLOR_NAME row NaN /\
  b_size_name b = nth COL_IDX_SIZE_NAME row NaN /\
  b_jan b = nth COL_IDX_JAN row NaN.
Proof.
  unfold base_row_of; intros Hb.
  apply bind_done in Hb; destruct Hb as (x1 & H1 & Hb).
  apply bind_done in Hb; destruct Hb as (x2 & H2 & Hb).
  apply bind_done in Hb; destruct Hb as (x3 & H3 & Hb).
  apply bind_done in Hb; destruct Hb as (x4 & H4 & Hb).
  apply bind_done in Hb; destruct Hb as (x5 & H5 & Hb).
  apply bind_done in Hb; destruct Hb as (x6 & H6 & Hb).
  apply bind_done in Hb; destruct Hb as (x7 & H7 & Hb).
  apply bind_done in Hb; destruct Hb as (x8 & H8 & Hb).
  injection Hb as <-;
    cbn [b_delivery_date b_client_name b_mk_code b_prod_name b_color_code
         b_color_name b_size_name b_jan].
  apply nth_cell_done in H1, H2, H3, H4, H5, H6, H7, H8.
  repeat split; auto.
Qed.

Lemma join_row_describes `{Runtime} (row : list cell) (b : base_row)
    (k : block_row) :
  base_row_of row = Done b -> describes row (join_row b k).
Proof.
  intros Hb; apply base_row_of_done in Hb.
  destruct Hb as (E1 & E2 & E3 & E4 & E5 & E6 & E7 & E8).
  unfold describes, join_row;
    cbn [delivery_date client_name mk_code prod_name color_code color_name
         size_name jan].
  rewrite E7; repeat split; assumption.
Qed.

Lemma region_block_rows_spec `{Runtime} (df : table) (k : nat) (r : block_row) :
  In r (region_block_rows df k) <->
  exists row,
    nth_error (df_data df) (k_original_index r) = Some row /\
    (0 < k_qty r)%Qc /\
    k_store_code r
      = stripped_or_empty (cell_at df ROW_IDX_DATA_START (block_col k)) /\
    k_store_name r
      = stripped_or_empty (cell_at df ROW_IDX_DATA_START (block_col k + 1)) /\
    k_qty r = fillna0 (to_numeric (nth (block_col k + 2) row NaN)).
Proof.
  unfold region_block_rows; rewrite block_of_spec; split.
  - intros (i & x & E & Hq & ->).
    cbn [k_original_index k_qty k_store_code k_store_name].
    rewrite nth_error_map in E.
    destruct (nth_error (df_data df) i) as [row|] eqn:Er; [|discriminate].
    injection E as <-; exists row; repeat split; auto.
  - intros (row & E & Hq & Hc & Hn & Hv).
    exists (k_original_index r), (nth (block_col k + 2) row NaN).
    rewrite nth_error_map, E; cbn [option_map]; rewrite <- Hv.
    repeat split; auto.
    destruct r; cbn [k_original_index k_qty k_store_code k_store_name] in *;
      congruence.
Qed.

(** X5.  The long table is exactly the unpivot of the region: every fact
    joins one data row with one block of the region, carrying the
    descriptive cells of that row, the store of that block and the
    positive coerced quantity of the block in that row; and every data
    row and block of the region with a positive coerced quantity has its
    fact. *)
Theorem unpivot_exact `{Runtime} (df : table) (final : list Fact) :
  final_df df = Done final ->
  (forall f, In f final ->
     exists k row,
       In k (region_blocks df) /\
       nth_error (df_data df) (original_index f) = Some row /\
       describes row f /\ from_block df k row f /\ (0 < qty f)%Qc) /\
  (forall k i row,
     In k (region_blocks df) ->
     nth_error (df_data df) i = Some row ->
     (0 < fillna0 (to_numeric (nth (block_col k + 2) row NaN)))%Qc ->
     exists f, In f final /\ original_index f = i /\
               describes row f /\ from_block df k row f).
Proof.
  intros Hf.
  pose proof (final_df_region _ Hf) as Hreg.
  apply final_df_done in Hf.
  destruct Hf as (_ & base & blocks & Hbase & _ & _ & Hj).
  assert (Hdesc : forall f, In f final ->
            forall row, nth_error (df_data df) (original_index f) = Some row ->
                        describes row f).
  { intros f Hin row Hrow.
    unfold positional_join in Hj; unfold base_df in Hbase.
    destruct (@mapM_In _ _ _ _ _ _ Hj Hin) as (kr & _ & Hkr).
    destruct (nth_error base (k_original_index kr)) as [b|] eqn:Eb;
      [|discriminate].
    injection Hkr as <-; cbn [original_index join_row] in Hrow.
    destruct (@mapM_nth _ _ _ _ _ _ _ Hbase Eb) as (row' & Hrow' & Hb).
    rewrite Hrow in Hrow'; injection Hrow' as <-.
    now apply join_row_describes. }
  split.
  - intros f Hin.
    pose proof (in_map fact_block_row _ _ Hin) as Hr; rewrite Hreg in Hr.
    apply in_flat_map in Hr; destruct Hr as (k & Hk & Hr).
    apply region_block_rows_spec in Hr.
    cbn [fact_block_row k_original_index k_qty k_store_code k_store_name] in Hr.
    destruct Hr as (row & Hrow & Hq & Hc & Hn & Hv).
    exists k, row.
    split; [exact Hk|]. split; [exact Hrow|].
    split; [exact (Hdesc f Hin row Hrow)|].
    split; [unfold from_block; auto|exact Hq].
  - intros k i row Hk Hrow Hq.
    assert (In {| k_store_code :=
                    stripped_or_empty (cell_at df ROW_IDX_DATA_START (block_col k));
                  k_store_name :=
                    stripped_or_empty
                      (cell_at df ROW_IDX_DATA_START (block_col k + 1));
                  k_qty := fillna0 (to_numeric (nth (block_col k + 2) row NaN));
                  k_original_index := i |}
               (map fact_block_row final)) as Hin.
    { rewrite Hreg; apply in_flat_map; exists k; split; [exact Hk|].
      apply region_block_rows_spec; exists row.
      cbn [k_original_index k_qty k_store_code k_store_name].
      repeat split; auto. }
    apply in_map_iff in Hin; destruct Hin as (f & Ef & Hin).
    injection Ef as Ec En Ev Ei.
    exists f.
    split; [exact Hin|]. split; [exact Ei|].
    split; [apply (Hdesc f Hin); now rewrite Ei|].
    unfold from_block; auto.
Qed.

Lemma unpivot_exact_witness :
  (forall f, In f sample_final ->
     exists k row,
       In k (@region_blocks reference_runtime sample_table) /\
       nth_error (df_data sample_table) (original_index f) = Some row /\
       @describes reference_runtime row f /\
       @from_block reference_runtime sample_table k row f /\ (0 < qty f)%Qc) /\
  (forall k i row,
     In k (@region_blocks reference_runtime sample_table) ->
     nth_error (df_data sample_table) i = Some row ->
     (0 < fillna0 (@to_numeric reference_runtime
                     (nth (block_col k + 2) row NaN)))%Qc ->
     exists f, In f sample_final /\ original_index f = i /\
               @describes reference_runtime row f /\
               @from_block reference_runtime sample_table k row f).
Proof.
  apply (@unpivot_exact reference_runtime sample_table sample_final).
  vm_compute; reflexivity.
Defined.

(** ** When a file is skipped and when it raises *)

Lemma py_range_store_cons (n : nat) :
  39 < n ->
  exists rest, py_range IDX_STORE_START n 3 = block_col 0 :: rest.
Proof.
  intros Hn; rewrite py_range_blocks.
  destruct ((n - 37 + 2) / 3) as [|m] eqn:E.
  - apply Nat.div_small_iff in E; lia.
  - simpl; eauto.
Qed.

Lemma py_range_store_short (n : nat) :
  n <= 39 ->
  py_range IDX_STORE_START n 3 = []
  \/ py_range IDX_STORE_START n 3 = [block_col 0].
Proof.
  intros Hn; rewrite py_range_blocks.
  destruct (Nat.le_gt_cases n 37) as [L|L].
  - left; replace (n - 37 + 2) with 2 by lia; reflexivity.
  - right; replace ((n - 37 + 2) / 3) with 1; [reflexivity|].
    apply Nat.div_unique with (r := n - 38); lia.
Qed.

Lemma header_iloc `{Runtime} (df : table) (i : nat) :
  i < total_cols df ->
  iloc df ROW_IDX_STORE_INFO i = Done (cell_at df ROW_IDX_STORE_INFO i).
Proof.
  unfold iloc, cell_at, total_cols, ROW_IDX_STORE_INFO.
  destruct df as [|row0 df]; simpl; [lia|intros Hi].
  unfold nth_cell; destruct (nth_error row0 i) eqn:E.
  - now rewrite (nth_error_nth _ _ _ E).
  - apply nth_error_None in E; lia.
Qed.

(** X6.  A rectangular table with more than 26 columns is skipped as having
    no usable data, whatever its rows hold, when it has fewer than 40
    columns (no store block fits) or when the header of the first store
    block holds the stop keyword. *)
Theorem no_store_block_skipped `{Runtime} (df : table) :
  rectangular df = true ->
  26 < total_cols df ->
  total_cols df <= 39 \/ header_has_stop df 0 = true ->
  final_df df = Skipped NoUsableData.
Proof.
  intros Hrect Hc Hcase; unfold final_df.
  apply Nat.leb_gt in Hc as Hc'; rewrite Hc'.
  assert (Hbase : exists base, base_df df = Done base).
  { unfold base_df.
    destruct (@mapM_total _ _ base_row_of (df_data df)) as (base & Hb & _);
      [|eauto].
    intros row Hin.
    assert (L : length row = total_cols df).
    { apply row_length; [exact Hrect|].
      unfold df_data, ROW_IDX_DATA_START in Hin.
      destruct df; simpl in Hin; [tauto|now right]. }
    unfold base_row_of,
      COL_IDX_DELIVERY_DATE, COL_IDX_CLIENT_NAME, COL_IDX_MK_CODE,
      COL_IDX_PROD_NAME, COL_IDX_COLOR_CODE, COL_IDX_COLOR_NAME,
      COL_IDX_SIZE_NAME, COL_IDX_JAN.
    destruct (@nth_cell_total row 3) as [x1 ->]; [lia|].
    destruct (@nth_cell_total row 8) as [x2 ->]; [lia|].
    destruct (@nth_cell_total row 14) as [x3 ->]; [lia|].
    destruct (@nth_cell_total row 15) as [x4 ->]; [lia|].
    destruct (@nth_cell_total row 21) as [x5 ->]; [lia|].
    destruct (@nth_cell_total row 23) as [x6 ->]; [lia|].
    destruct (@nth_cell_total row 25) as [x7 ->]; [lia|].
    destruct (@nth_cell_total row 16) as [x8 ->]; [lia|].
    simpl; eauto. }
  destruct Hbase as (base & ->); cbn [bind].
  assert (Hscan : store_data_list df = Done []); [|now rewrite Hscan].
  unfold store_data_list.
  destruct (Nat.le_gt_cases (total_cols df) 39) as [L|L].
  - destruct (py_range_store_short L) as [-> | ->]; [reflexivity|].
    cbn [scan_store_blocks].
    replace (total_cols df <=? block_col 0 + 2) with true; [reflexivity|].
    symmetry; apply Nat.leb_le; unfold block_col, IDX_STORE_START; lia.
  - destruct Hcase as [Hcase|Hstop]; [lia|].
    destruct (py_range_store_cons L) as (rest & ->).
    cbn [scan_store_blocks].
    replace (total_cols df <=? block_col 0 + 2) with false.
    + rewrite header_iloc by (unfold block_col, IDX_STORE_START; lia).
      cbn [bind]; cbv zeta.
      unfold header_has_stop in Hstop; now rewrite Hstop.
    + symmetry; apply Nat.leb_gt; unfold block_col, IDX_STORE_START; lia.
Qed.

Lemma no_store_block_skipped_witness :
  @final_df reference_runtime narrow_table = Skipped NoUsableData.
Proof.
  apply (@no_store_block_skipped reference_runtime narrow_table);
    [reflexivity | vm_compute; lia | left; vm_compute; lia].
Defined.

(** X7.  A table that is only its header row, with room for a store block
    whose header does not hold the stop keyword, makes the scan raise
    IndexError at [df.iloc[ROW_IDX_DATA_START, i]]: the file is neither
    skipped nor processed. *)
Theorem header_only_table_raises `{Runtime} (df : table) :
  length df = 1 ->
  39 < total_cols df ->
  header_has_stop df 0 = false ->
  final_df df = Raised IndexError.
Proof.
  intros Hlen Hc Hstop.
  destruct df as [|row0 [|row1 df]]; try discriminate.
  unfold final_df.
  replace (total_cols [row0] <=? 26) with false
    by (symmetry; apply Nat.leb_gt; lia).
  change (base_df [row0]) with (@Done (list base_row) []); cbn [bind].
  unfold store_data_list.
  destruct (py_range_store_cons Hc) as (rest & ->).
  cbn [scan_store_blocks].
  replace (total_cols [row0] <=? block_col 0 + 2) with false
    by (symmetry; apply Nat.leb_gt; unfold block_col, IDX_STORE_START; lia).
  rewrite header_iloc by (unfold block_col, IDX_STORE_START; lia).
  cbn [bind]; cbv zeta.
  unfold header_has_stop in Hstop; rewrite Hstop.
  reflexivity.
Qed.

Lemma header_only_table_raises_witness :
  @final_df reference_runtime one_row_table = Raised IndexError.
Proof.
  apply (@header_only_table_raises reference_runtime one_row_table);
    [reflexivity | vm_compute; lia | vm_compute; reflexivity].
Defined.

Lemma flat_map_nil {A B : Type} (f : A -> list B) (l : list A) :
  flat_map f l = [] <-> forall a, In a l -> f a = [].
Proof.
  induction l as [|x l IH]; simpl; [tauto|].
  split.
  - intros E; apply app_eq_nil in E; destruct E as [Ex El].
    intros a [<-|Ha]; [exact Ex|]. now apply IH.
  - intros Hall; rewrite (Hall x (or_introl eq_refl)); simpl.
    apply IH; intros a Ha; apply Hall; now right.
Qed.

Lemma region_block_rows_nil `{Runtime} (df : table) (k : nat) :
  region_block_rows df k = []
  <-> filter (Qc_ltb 0) (block_quantities df k) = [].
Proof.
  rewrite <- region_block_quantities; split.
  - now intros ->.
  - apply map_eq_nil.
Qed.

(** X8.  For a rectangular table with more than 26 columns and at least two
    rows, the "no usable data" skip is taken exactly when no quantity cell
    of the store-block region coerces to a positive number; otherwise the
    long table is returned. *)
Theorem no_usable_data_iff `{Runtime} (df : table) :
  rectangular df = true ->
  26 < total_cols df ->
  2 <= length df ->
  (final_df df = Skipped NoUsableData <->
   forall k, In k (region_blocks df) ->
             filter (Qc_ltb 0) (block_quantities df k) = []) /\
  (final_df df <> Skipped NoUsableData -> exists final, final_df df = Done final).
Proof.
  intros Hrect Hc Hrows; split.
  - split.
    + intros Hs k Hk; apply region_block_rows_nil; revert k Hk.
      apply flat_map_nil.
      unfold final_df in Hs.
      apply Nat.leb_gt in Hc as Hc'; rewrite Hc' in Hs.
      destruct (@base_df_total df Hrect Hrows Hc) as (base & Hb & Lb).
      rewrite Hb in Hs; cbn [bind] in Hs.
      destruct (@scan_total _ df Hrect Hrows
                  (py_range IDX_STORE_START (total_cols df) 3))
        as (blocks & Hsc & Hidx).
      fold (store_data_list df) in Hsc; rewrite Hsc in Hs; cbn [bind] in Hs.
      destruct blocks as [|b bs].
      * now rewrite <- (store_data_list_region _ Hsc).
      * destruct (@positional_join_total _ df Hrows base (concat (b :: bs)))
          as (final & Hj); [|rewrite Hj in Hs; discriminate].
        rewrite Lb; now apply Forall_concat.
    + intros Hall.
      destruct (@final_df_total _ df Hrect Hrows Hc) as [(final & Hf)|Hs];
        [exfalso|exact Hs].
      apply (final_df_nonempty _ Hf).
      apply (map_eq_nil fact_block_row).
      rewrite (final_df_region _ Hf); apply flat_map_nil.
      intros k Hk; apply region_block_rows_nil; now apply Hall.
  - intros Hns.
    destruct (@final_df_total _ df Hrect Hrows Hc) as [Hf|Hs]; [exact Hf|].
    contradiction.
Qed.

Lemma no_usable_data_iff_witness :
  (@final_df reference_runtime sample_table = Skipped NoUsableData <->
   forall k, In k (@region_blocks reference_runtime sample_table) ->
             filter (Qc_ltb 0) (@block_quantities reference_runtime sample_table k)
             = []) /\
  (@final_df reference_runtime sample_table <> Skipped NoUsableData ->
   exists final, @final_df reference_runtime sample_table = Done final).
Proof.
  apply (@no_usable_data_iff reference_runtime sample_table);
    [reflexivity | vm_compute; lia | simpl; lia].
Defined.

(** ** The loop of main *)

Lemma process_files_all `{Runtime} (files : list csv_file) :
  Forall (fun f => snd (process_single_csv f) = None) files ->
  process_files files
  = (flat_map (fun f => fst (process_single_csv f)) files, None).
Proof.
  induction 1 as [|f files Hf _ IH]; [reflexivity|].
  cbn [process_files flat_map].
  destruct (process_single_csv f) as [log o]; cbn [fst snd] in *; subst o.
  now rewrite IH.
Qed.

Lemma process_files_stop `{Runtime} (fs1 fs2 : list csv_file) (f : csv_file)
    (e : exn) :
  Forall (fun f => snd (process_single_csv f) = None) fs1 ->
  snd (process_single_csv f) = Some e ->
  process_files (fs1 ++ f :: fs2)
  = (flat_map (fun f => fst (process_single_csv f)) fs1
       ++ fst (process_single_csv f), Some e).
Proof.
  intros H1 Hf; induction H1 as [|g fs1 Hg _ IH].
  - cbn [app process_files flat_map].
    destruct (process_single_csv f) as [log o]; cbn [fst snd] in *; now subst o.
  - cbn [app process_files flat_map].
    destruct (process_single_csv g) as [log o]; cbn [fst snd] in *; subst o.
    rewrite IH; cbn [fst snd]; now rewrite app_assoc.
Qed.

(** X9.  With no input file [main] only reports that; with files that all
    return normally it processes every one of them, in order, and reports
    the end of the run. *)
Theorem main_processes_every_file `{Runtime} (files : list csv_file) :
  Forall (fun f => snd (process_single_csv f) = None) files ->
  main files
  = match files with
    | [] => ([LogNoFiles], None)
    | _ => (flat_map (fun f => fst (process_single_csv f)) files
              ++ [LogFinished], None)
    end.
Proof.
  intros Hall; destruct files as [|f files]; [reflexivity|].
  unfold main; now rewrite (process_files_all Hall).
Qed.

Lemma main_processes_every_file_witness :
  @main reference_runtime [sample_file_cp932; narrow_file; unreadable_file]
  = (flat_map (fun f => fst (@process_single_csv reference_runtime f))
       [sample_file_cp932; narrow_file; unreadable_file] ++ [LogFinished],
     None).
Proof.
  apply (@main_processes_every_file reference_runtime
           [sample_file_cp932; narrow_file; unreadable_file]).
  repeat constructor.
Defined.

(** X10.  The first file that raises ends the run: the files before it are
    processed, the exception leaves [main], and neither the files after
    it nor the final message are reached, whatever those files are. *)
Theorem main_stops_at_first_raise `{Runtime} (fs1 fs2 : list csv_file)
    (f : csv_file) (e : exn) :
  Forall (fun f => snd (process_single_csv f) = None) fs1 ->
  snd (process_single_csv f) = Some e ->
  main (fs1 ++ f :: fs2)
  = (flat_map (fun f => fst (process_single_csv f)) fs1
       ++ fst (process_single_csv f), Some e).
Proof.
  intros H1 Hf; unfold main.
  rewrite (@process_files_stop _ fs1 fs2 f e H1 Hf).
  now destruct fs1.
Qed.

Lemma main_stops_at_first_raise_witness :
  @main reference_runtime
    ([narrow_file] ++ locked_report1_file :: [sample_file_utf8])
  = (flat_map (fun f => fst (@process_single_csv reference_runtime f))
       [narrow_file]
       ++ fst (@process_single_csv reference_runtime locked_report1_file),
     Some RenderError).
Proof.
  apply (@main_stops_at_first_raise reference_runtime [narrow_file]
           [sample_file_utf8] locked_report1_file RenderError).
  - repeat constructor.
  - vm_compute; reflexivity.
Defined.

(** ** Center sheets *)



(** ** strip *)

Lemma lstrip_clean (s : ustring) : starts_clean (lstrip s).
Proof.
  induction s as [|c s IH]; simpl; [exact I|].
  destruct (is_space c) eqn:E; [exact IH|exact E].
Qed.

Lemma lstrip_suffix (s : ustring) : exists sp, s = sp ++ lstrip s.
Proof.
  induction s as [|c s IH]; simpl; [now exists []|].
  destruct (is_space c).
  - destruct IH as (sp & E); exists (c :: sp); simpl; now f_equal.
  - now exists [].
Qed.

Lemma lstrip_fixed (s : ustring) : starts_clean s -> lstrip s = s.
Proof. destruct s as [|c s]; simpl; [reflexivity|now intros ->]. Qed.

Lemma starts_clean_prefix (a b : ustring) :
  starts_clean (a ++ b) -> starts_clean a.
Proof. destruct a; simpl; auto. Qed.

Lemma strip_clean (s : ustring) : no_surrounding_space (strip s).
Proof.
  unfold no_surrounding_space, strip, rstrip; split.
  - destruct (lstrip_suffix (rev (lstrip s))) as (sp & E).
    apply (f_equal (@rev N)) in E; rewrite rev_involutive, rev_app_distr in E.
    apply starts_clean_prefix with (b := rev sp).
    rewrite <- E; apply lstrip_clean.
  - rewrite rev_involutive; apply lstrip_clean.
Qed.

(** X12.  A normalized size label and a store code or name read by the scan
    never start or end with a space character. *)
Theorem stripped_text_clean `{Runtime} :
  (forall text, no_surrounding_space (normalize_size_text text)) /\
  (forall x, no_surrounding_space (stripped_or_empty x)).
Proof.
  split.
  - intros text; unfold normalize_size_text.
    destruct (isna text); [split; exact I|apply strip_clean].
  - intros x; unfold stripped_or_empty.
    destruct (isna x); [split; exact I|apply strip_clean].
Qed.

(** ** sanitize_sheet_name *)

(** X13.  A sheet name has at most 31 characters, and it is "Unknown" for a
    missing or empty name. *)
Theorem sheet_name_bounded `{Runtime} (name : cell) :
  length (sanitize_sheet_name name) <= 31 /\
  (name = NaN \/ name = Text [] -> sanitize_sheet_name name = u "Unknown").
Proof.
  unfold sanitize_sheet_name; split.
  - destruct (isna name || cell_eqb name (Text [])).
    + vm_compute; lia.
    + rewrite length_firstn; lia.
  - intros [-> | ->]; reflexivity.
Qed.

Lemma re_sub_sheet_no_bracket (s : ustring) :
  ~ In 93%N s -> re_sub_sheet s = s.
Proof.
  induction s as [|c s IH]; [reflexivity|].
  intros Hn; destruct s as [|d rest]; [reflexivity|].
  cbn [re_sub_sheet].
  destruct (N.eqb_spec d 93) as [->|Hd].
  - exfalso; apply Hn; right; now left.
  - rewrite andb_false_r; f_equal; apply IH.
    intros Hin; apply Hn; now right.
Qed.

Lemma sanitize_without_bracket `{Runtime} (s : ustring) :
  s <> [] ->
  ~ In 93%N s ->
  sanitize_sheet_name (Text s) = firstn 31 (strip s).
Proof.
  intros Hne Hb; unfold sanitize_sheet_name.
  replace (isna (Text s) || cell_eqb (Text s) (Text [])) with false.
  - cbn [str]; now rewrite re_sub_sheet_no_bracket.
  - destruct s; [congruence|reflexivity].
Qed.

(** X14.  Only a character of the set directly followed by a closing
    bracket is replaced: a non-empty text name without a closing bracket
    keeps all its characters, slashes, colons, stars and the like
    included, and is only stripped and cut to 31. *)
Theorem sheet_name_without_bracket `{Runtime} (s : ustring) :
  s <> [] ->
  ~ In 93%N s ->
  sanitize_sheet_name (Text s) = firstn 31 (strip s).
Proof. apply sanitize_without_bracket. Qed.

Lemma sheet_name_without_bracket_witness :
  @sanitize_sheet_name reference_runtime (Text (u "A/B:C*"))
  = firstn 31 (strip (u "A/B:C*")).
Proof.
  apply (@sheet_name_without_bracket reference_runtime (u "A/B:C*")).
  - discriminate.
  - vm_compute; intuition discriminate.
Defined.

Lemma lstrip_app_clean (a b : ustring) :
  starts_clean b -> lstrip (a ++ b) = lstrip a ++ b.
Proof.
  intros Hb; induction a as [|c a IH]; simpl; [now apply lstrip_fixed|].
  destruct (is_space c); [exact IH|reflexivity].
Qed.

Lemma starts_clean_all (p : ustring) :
  Forall (fun c => is_space c = false) p -> starts_clean p.
Proof. intros F; destruct F; simpl; auto. Qed.

(** X15.  The cut to 31 characters is not injective: a text name that
    starts with 31 characters none of which is a space, and holds no
    closing bracket, gets those 31 characters as its sheet name whatever
    follows them, so names that differ only after them share one sheet
    name. *)
Theorem sheet_name_truncates `{Runtime} (p t : ustring) :
  length p = 31 ->
  Forall (fun c => is_space c = false) p ->
  ~ In 93%N (p ++ t) ->
  sanitize_sheet_name (Text (p ++ t)) = p.
Proof.
  intros Hl Hp Hb.
  rewrite sanitize_without_bracket; [|destruct p; discriminate|exact Hb].
  unfold strip, rstrip.
  assert (Hc : starts_clean (p ++ t))
    by (destruct Hp; [discriminate|assumption]).
  rewrite (lstrip_fixed _ Hc), rev_app_distr, lstrip_app_clean.
  - rewrite rev_app_distr, rev_involutive.
    rewrite firstn_app, Hl, Nat.sub_diag, firstn_O, app_nil_r.
    apply firstn_all2; lia.
  - apply starts_clean_all, Forall_rev, Hp.
Qed.

Lemma sheet_name_truncates_witness :
  @sanitize_sheet_name reference_runtime (Text (long_name ++ u "_Store A"))
  = long_name.
Proof.
  apply (@sheet_name_truncates reference_runtime long_name (u "_Store A")).
  - reflexivity.
  - repeat constructor.
  - vm_compute; intuition discriminate.
Defined.

(** ** get_str_width *)

Section WidthFacts.
Variable east_asian_width : N -> string.

Lemma width_fold (s : ustring) (w : nat) :
  fold_left (fun width c => if counts_double east_asian_width c
                            then width + 2 else width + 1) s w
  = w + get_str_width east_asian_width s.
Proof.
  unfold get_str_width; revert w; induction s as [|c s IH]; intros w; simpl.
  - lia.
  - rewrite IH, (IH (if counts_double east_asian_width c then 2 else 1)).
    destruct (counts_double east_asian_width c); lia.
Qed.

(** X16.  The display width of a string is the sum of the widths of its
    parts, and lies between its length and twice its length. *)
Theorem get_str_width_additive (s t : ustring) :
  get_str_width east_asian_width (s ++ t)
  = get_str_width east_asian_width s + get_str_width east_asian_width t /\
  length s <= get_str_width east_asian_width s <= 2 * length s.
Proof.
  split.
  - unfold get_str_width at 1; rewrite fold_left_app, width_fold.
    fold (get_str_width east_asian_width s); lia.
  - induction s as [|c s IH]; [unfold get_str_width; simpl; lia|].
    unfold get_str_width; cbn [fold_left length].
    rewrite width_fold.
    destruct (counts_double east_asian_width c); simpl; lia.
Qed.
End WidthFacts.

(** ** Rows of the product report *)


(** ** The center shown on a store sheet *)

Lemma unique_by_first {R : Type} (key : R -> list cell) (l : list R) (g : R) :
  In g (unique_by key l) ->
  exists l1 l2, l = l1 ++ g :: l2 /\ forall x, In x l1 -> key x <> key g.
Proof.
  induction l as [|x l IH]; simpl; [tauto|].
  intros [->|Hin].
  - exists [], l; split; [reflexivity|intros y []].
  - apply filter_In in Hin; destruct Hin as [Hin Hne].
    destruct (IH Hin) as (l1 & l2 & -> & Hl1).
    exists (x :: l1), l2; split; [reflexivity|].
    intros y [<-|Hy]; [|now apply Hl1].
    intros E; rewrite E, key_eqb_refl in Hne; discriminate.
Qed.

Lemma StronglySorted_app_r {A : Type} (Rel : A -> A -> Prop) (l1 l2 : list A) :
  StronglySorted Rel (l1 ++ l2) -> StronglySorted Rel l2.
Proof.
  induction l1 as [|x l1 IH]; simpl; [auto|].
  intros S; apply StronglySorted_inv in S; tauto.
Qed.

Lemma key_le_head (c1 c2 : cell) (r1 r2 : list cell) :
  key_le (c1 :: r1) (c2 :: r2) -> cell_compare c1 c2 <> Gt.
Proof.
  unfold key_le; simpl; destruct (cell_compare c1 c2); congruence.
Qed.

(** X18.  A store sheet holds the facts of its store whatever their center,
    and the center it shows is that of its first row: no fact of the store
    has a center that sorts before it. *)
Theorem store_sheet_center `{Runtime} (final : list Fact) :
  Forall
    (fun s =>
       forall f, In f final ->
                 store_code f = st_code s -> store_name f = st_name s ->
                 In (store_out_row_of f) (df_out s) /\
                 cell_compare (st_client_name s) (client_name f) <> Gt)
    (out3 final).
Proof.
  apply Forall_forall; intros s Hs f Hf Hc Hn.
  unfold out3, store_sheets, groupby in Hs.
  rewrite store_key_dropna, map_map in Hs; cbn [fst snd] in Hs.
  apply in_map_iff in Hs; destruct Hs as (g & <- & Hg).
  cbn [st_code st_name st_client_name df_out] in *.
  assert (Hin : In f (out3_base final)) by now apply sort_df_In.
  assert (Hk : store_key f = store_key g)
    by (unfold store_key; now rewrite Hc, Hn).
  split.
  - apply in_map, filter_In; split; [exact Hin|now apply key_eqb_eq].
  - pose proof (sort_df_strongly_sorted final
                 [Col client_name; Col (fun f => Text (store_code f));
                  Col (fun f => Text (store_name f)); Col prod_name;
                  Col mk_code; Col color_code;
                  SizeCol (fun f => Text (size_name f))]) as S.
    fold (out3_base final) in S.
    destruct (unique_by_first _ _ _ Hg) as (l1 & l2 & E & Hl1).
    rewrite E in S, Hin.
    apply StronglySorted_app_r, StronglySorted_inv in S; destruct S as [_ F].
    apply in_app_or in Hin; destruct Hin as [Hin|[<-|Hin]].
    + exfalso; exact (Hl1 _ Hin Hk).
    + rewrite cell_compare_refl; discriminate.
    + rewrite Forall_forall in F; specialize (F _ Hin).
      exact (key_le_head F).
Qed.

(** ** The workbooks of one file *)

Lemma read_csv_writes_nothing (f : csv_file) : written (fst (read_csv f)) = [].
Proof.
  unfold read_csv; destruct (read_utf8 f); [reflexivity| |reflexivity].
  destruct (read_cp932 f); reflexivity.
Qed.

(** X19.  The workbooks of a file are written in the order 1, 2, 3 and none
    is written without the ones before it: what is written is nothing, or
    the first one, two or three reports of the facts of the table.  The
    function returns normally with two or three of them written, and
    raises after the first alone. *)
Theorem reports_in_order `{Runtime} (f : csv_file) :
  written (fst (process_single_csv f)) = [] \/
  exists df final n,
    snd (read_csv f) = Some df /\ final_df df = Done final /\
    1 <= n <= 3 /\
    written (fst (process_single_csv f))
    = firstn n [Wrote1 (out1 final); Wrote2 (out2 final); Wrote3 (out3 final)] /\
    (snd (process_single_csv f) = None <-> 2 <= n).
Proof.
  pose proof (read_csv_writes_nothing f) as L.
  unfold process_single_csv.
  destruct (read_csv f) as [log [df|]]; cbn [fst snd] in *; [|now left].
  destruct (final_df df) as [final|[]|e] eqn:Ef; cbn [fst];
    unfold written in *; rewrite ?filter_app, ?L; try (now left).
  destruct (writable f Report1); [|now left].
  right; exists df, final.
  destruct (writable f Report2); [destruct (writable f Report3)|].
  - exists 3; cbn [fst snd]; rewrite !filter_app, L.
    repeat split; auto; lia.
  - exists 2; cbn [fst snd]; rewrite !filter_app, L.
    repeat split; auto; lia.
  - exists 1; cbn [fst snd]; rewrite !filter_app, L.
    repeat split; auto; try lia; discriminate.
Qed.

(** ** What the sheet-name pattern replaces *)

Lemma re_sub_sheet_cons (x d : N) (rest : ustring) :
  d <> 93%N -> re_sub_sheet (x :: d :: rest) = x :: re_sub_sheet (d :: rest).
Proof.
  intros Hd; cbn [re_sub_sheet].
  destruct (N.eqb_spec d 93); [contradiction|].
  now rewrite andb_false_r.
Qed.

(** X20.  After a stretch without closing bracket, a character followed by a
    closing bracket is replaced together with the bracket by one underscore
    when it is one of backslash, bar, slash, colon, question mark, star and
    opening bracket; after any other character the closing bracket stays. *)
Theorem sheet_pattern_pairs (a b : ustring) (c : N) :
  ~ In 93%N a ->
  c <> 93%N ->
  re_sub_sheet (a ++ c :: 93%N :: b)
  = if in_sheet_set c then a ++ 95%N :: re_sub_sheet b
    else a ++ c :: 93%N :: re_sub_sheet b.
Proof.
  intros Ha Hc; induction a as [|x a IH].
  - cbn [app re_sub_sheet]; rewrite N.eqb_refl, andb_true_r.
    destruct (in_sheet_set c); [reflexivity|].
    f_equal; destruct b as [|d rest]; [reflexivity|].
    cbn [re_sub_sheet]; reflexivity.
  - assert (Ha' : ~ In 93%N a) by (intros Hin; apply Ha; now right).
    specialize (IH Ha').
    change ((x :: a) ++ c :: 93%N :: b) with (x :: (a ++ c :: 93%N :: b)).
    destruct a as [|d a].
    + cbn [app] in *; rewrite re_sub_sheet_cons by exact Hc.
      rewrite IH; now destruct (in_sheet_set c).
    + cbn [app] in *; rewrite re_sub_sheet_cons.
      * rewrite IH; now destruct (in_sheet_set c).
      * intros ->; apply Ha'; now left.
Qed.

Lemma sheet_pattern_pairs_witness :
  re_sub_sheet (u "x" ++ 47%N :: 93%N :: u "y")
  = if in_sheet_set 47 then u "x" ++ 95%N :: re_sub_sheet (u "y")
    else u "x" ++ 47%N :: 93%N :: re_sub_sheet (u "y").
Proof.
  apply (@sheet_pattern_pairs (u "x") (u "y") 47%N).
  - vm_compute; intuition discriminate.
  - discriminate.
Defined.
